(** * A shallow embedding of @apostrophecms/sql (index.js)

    The module wraps a knex connection in a MongoDB-like collection API.
    Documents are stored as rows [{_id, _ext_json, <one column per indexed
    field>}]; queries push equality tests on indexed fields down to SQL and
    filter the decoded documents in memory with sift.

    Layout of this file:
    - [Js]        : JavaScript values and the handful of primitives index.js
                    relies on (own properties, truthiness, spread, slice, Set);
    - [Host]      : the external collaborators (sift, EJSON, cuid, the clock,
                    the SQL engine's ORDER BY and error objects) as an
                    interface;
    - [Knex]      : the part of the relational engine the module talks to;
    - the module itself, function by function, in a state-and-exception
      monad over the collection and its table;
    - [Reference] : a host to run the model on, over SQLite and over
                    PostgreSQL, and the collections the scenarios use;
    - the properties: reading ([toArray], pushdown, skip and limit),
      deleting, update operators, inserting, and the scenarios.

    JavaScript objects are association lists in property enumeration order:
    [Object.entries(operations)] decides the order in which update operators
    run, so order matters.  Property names that are canonical array indices
    are enumerated by JavaScript ahead of the others; the model keeps
    insertion order, which is the same thing for every other name.

    [VNum z] is the number whose value is the integer [z].  A double holds
    every integer up to 2^53 in size exactly ([safe_integer]); what [+]
    gives is fixed inside that range only.

    [get] reads own properties.  That is all there is to read under the
    names the module chooses itself ([_id], [$set], [unique], ...).  Where
    [$pull] and [$addToSet] read [doc[prop]] under a name the caller
    chooses, the members every object inherits from [Object.prototype]
    count as well ([member]); [distinct] is modelled for property names that
    are not among them.

    Every column of the table is a varchar or text column: a cell holds
    NULL or text, and the engine compares a cell with a bound value as
    text ([Knex.stored], [Knex.sql_eq]).

    A collection is modelled from the moment its background table creation
    has settled. *)

From Stdlib Require Import String Ascii List ZArith Bool Lia Arith.
From Stdlib Require Import DecimalString Decimal Permutation.
Import ListNotations.
Local Open Scope string_scope.
Local Open Scope list_scope.
Set Warnings "-register-all".

(* ===================================================================== *)
(** ** JavaScript values *)
(* ===================================================================== *)

Module Js.

Inductive value : Type :=
| VUndef
| VNull
| VBool (b : bool)
| VNum (z : Z)
| VStr (s : string)
| VDate (ms : Z)
| VArr (l : list value)
| VObj (kvs : list (string * value)).

Definition obj : Type := list (string * value).

(** Structural equality, as a boolean. *)
Fixpoint value_eqb (a b : value) {struct a} : bool :=
  match a, b with
  | VUndef, VUndef => true
  | VNull, VNull => true
  | VBool x, VBool y => Bool.eqb x y
  | VNum x, VNum y => Z.eqb x y
  | VStr x, VStr y => String.eqb x y
  | VDate x, VDate y => Z.eqb x y
  | VArr l, VArr m =>
      (fix go (l m : list value) {struct l} : bool :=
         match l, m with
         | [], [] => true
         | x :: l', y :: m' => value_eqb x y && go l' m'
         | _, _ => false
         end) l m
  | VObj l, VObj m =>
      (fix go (l m : list (string * value)) {struct l} : bool :=
         match l, m with
         | [], [] => true
         | (k, x) :: l', (k', y) :: m' =>
             String.eqb k k' && value_eqb x y && go l' m'
         | _, _ => false
         end) l m
  | _, _ => false
  end.

Definition is_undef (v : value) : bool :=
  match v with VUndef => true | _ => false end.

Definition nullish (v : value) : bool :=
  match v with VUndef | VNull => true | _ => false end.

(** [if (v)]: undefined, null, false, 0 and the empty string are falsy. *)
Definition truthy (v : value) : bool :=
  match v with
  | VUndef | VNull => false
  | VBool b => b
  | VNum z => negb (Z.eqb z 0)
  | VStr s => negb (String.eqb s "")
  | VDate _ | VArr _ | VObj _ => true
  end.

(** [(typeof v) !== 'object'] *)
Definition typeof_not_object (v : value) : bool :=
  match v with
  | VNull | VDate _ | VArr _ | VObj _ => false
  | VUndef | VBool _ | VNum _ | VStr _ => true
  end.

(** [a || b] *)
Definition js_or (a b : value) : value := if truthy a then a else b.

(** [a === b].  Primitives compare by value.  Objects, arrays and dates
    compare by identity; the documents the module works on are freshly
    decoded from a blob, so none of their parts is identical to a part of
    the caller's arguments or to another of their own parts. *)
Definition strict_eq (a b : value) : bool :=
  match a, b with
  | VUndef, VUndef => true
  | VNull, VNull => true
  | VBool x, VBool y => Bool.eqb x y
  | VNum x, VNum y => Z.eqb x y
  | VStr x, VStr y => String.eqb x y
  | _, _ => false
  end.

(** *** Own properties *)

Fixpoint lookup (k : string) (kvs : obj) : option value :=
  match kvs with
  | [] => None
  | (k', v) :: rest => if String.eqb k' k then Some v else lookup k rest
  end.

Definition key_of_index (n : nat) : string :=
  NilEmpty.string_of_uint (Nat.to_uint n).

(** A property name is an array index when it is the canonical decimal
    form of a natural number. *)
Definition index_of_key (k : string) : option nat :=
  match NilEmpty.uint_of_string k with
  | Some u =>
      let n := Nat.of_uint u in
      if String.eqb (key_of_index n) k then Some n else None
  | None => None
  end.

Fixpoint chars (s : string) : list value :=
  match s with
  | EmptyString => []
  | String c rest => VStr (String c EmptyString) :: chars rest
  end.

Definition indexed (l : list value) : obj :=
  combine (map key_of_index (seq 0 (length l))) l.

(** [Object.entries(v)] for a value that is not null or undefined. *)
Definition entries (v : value) : obj :=
  match v with
  | VObj kvs => kvs
  | VArr l => indexed l
  | VStr s => indexed (chars s)
  | _ => []
  end.

(** [Object.keys(v)] and [Object.values(v)], same proviso. *)
Definition keys (v : value) : list string := map fst (entries v).
Definition values (v : value) : list value := map snd (entries v).

(** [Object.hasOwn(v, k)] for a value that is not null or undefined. *)
Definition hasOwn (v : value) (k : string) : bool :=
  match v with
  | VObj kvs => match lookup k kvs with Some _ => true | None => false end
  | VArr l =>
      String.eqb k "length" ||
      match index_of_key k with Some i => Nat.ltb i (length l) | None => false end
  | VStr s =>
      String.eqb k "length" ||
      match index_of_key k with Some i => Nat.ltb i (String.length s) | None => false end
  | _ => false
  end.

(** [v[k]], own properties only. *)
Definition get (v : value) (k : string) : value :=
  match v with
  | VObj kvs => match lookup k kvs with Some x => x | None => VUndef end
  | VArr l =>
      if String.eqb k "length" then VNum (Z.of_nat (length l))
      else match index_of_key k with
           | Some i => nth i l VUndef
           | None => VUndef
           end
  | VStr s =>
      if String.eqb k "length" then VNum (Z.of_nat (String.length s))
      else match index_of_key k with
           | Some i => nth i (chars s) VUndef
           | None => VUndef
           end
  | _ => VUndef
  end.

(** The properties of [Object.prototype].  Every value but null and
    undefined inherits them: under one of these names [v[k]] finds, when
    [v] has no own property [k], a built-in function (for [__proto__], the
    prototype object itself). *)
Definition inherited (k : string) : bool :=
  existsb (String.eqb k)
    ["constructor"; "__defineGetter__"; "__defineSetter__"; "hasOwnProperty";
     "__lookupGetter__"; "__lookupSetter__"; "isPrototypeOf";
     "propertyIsEnumerable"; "toString"; "valueOf"; "__proto__";
     "toLocaleString"].

(** [v[k]] along the prototype chain, for a value that is not null or
    undefined: the own property when there is one; [None] for a built-in
    member of [Object.prototype], which is truthy, is not an array and
    cannot be iterated; [undefined] otherwise.  (Documents are mappings:
    the further members of [Array.prototype] and [String.prototype] are
    left out.) *)
Definition member (v : value) (k : string) : option value :=
  if hasOwn v k then Some (get v k)
  else if inherited k then None
  else Some VUndef.

(** [o[k] = v] on an object: an existing property keeps its place, a new
    one goes last. *)
Fixpoint assign (k : string) (v : value) (o : obj) : obj :=
  match o with
  | [] => [(k, v)]
  | (k', x) :: rest =>
      if String.eqb k' k then (k', v) :: rest else (k', x) :: assign k v rest
  end.

(** [delete o[k]] *)
Fixpoint remove (k : string) (o : obj) : obj :=
  match o with
  | [] => []
  | (k', x) :: rest =>
      if String.eqb k' k then remove k rest else (k', x) :: remove k rest
  end.

(** [{...v}]: the own enumerable properties of [v], nothing for null,
    undefined, numbers, booleans and dates. *)
Definition spread (v : value) : obj :=
  match v with
  | VUndef | VNull => []
  | _ => entries v
  end.

(** [{...o, ...p}] and [Object.assign(o, p)] *)
Definition assign_all (o p : obj) : obj :=
  fold_left (fun acc kv => assign (fst kv) (snd kv) acc) p o.

(** *** Numbers *)

(** The integers a double holds exactly, each of its neighbours included:
    those of size 2^53 at most. *)
Definition safe_integer (z : Z) : Prop := (Z.abs z <= 9007199254740992)%Z.

(** *** Arrays *)

(** [l.slice(start)] and [l.slice(0, stop)] with JavaScript's treatment of
    negative positions (counted from the end) and of positions past the end. *)
Definition clamp (len : nat) (i : Z) : nat :=
  if Z.ltb i 0 then Z.to_nat (Z.max (Z.of_nat len + i) 0)
  else Nat.min (Z.to_nat i) len.

Definition slice_from {A} (start : Z) (l : list A) : list A :=
  skipn (clamp (length l) start) l.

Definition slice_to {A} (stop : Z) (l : list A) : list A :=
  firstn (clamp (length l) stop) l.

(** [[...new Set(l)]]: the first occurrence of every element, in order,
    elements compared with SameValueZero (here [strict_eq]). *)
Fixpoint set_of (l : list value) : list value :=
  match l with
  | [] => []
  | x :: rest => x :: filter (fun y => negb (strict_eq y x)) (set_of rest)
  end.

End Js.

Import Js.

(* ===================================================================== *)
(** ** Errors and outcomes *)
(* ===================================================================== *)

(** A thrown JavaScript error: its [code] property (undefined on a plain
    [Error]) and its message. *)
Record error : Type := mkError { code : value; message : string }.

Definition js_error (msg : string) : error :=
  {| code := VUndef; message := msg |}.

Definition type_error : error :=
  js_error "Cannot convert undefined or null to object".

(** [e.toString()] *)
Definition error_toString (e : error) : string := "Error: " ++ message e.

(** [s.includes(needle)] *)
Definition includes (needle s : string) : bool :=
  match String.index 0 needle s with Some _ => true | None => false end.

Inductive outcome (A : Type) : Type :=
| Return (a : A)
| Throw (e : error).
Arguments Return {A} a.
Arguments Throw {A} e.

(* ===================================================================== *)
(** ** The external collaborators *)
(* ===================================================================== *)

(** Everything index.js obtains from outside: the sift matcher, the EJSON
    codec, the cuid generator, the clock behind [new Date()], the [+]
    operator of [doc[prop] += increment], and what the SQL engine decides
    by itself (the text a column keeps of a bound value, the order of
    ORDER BY, the error objects it throws). *)
Class Host : Type := {
  (** [sift(criteria)(doc)] *)
  sift : value -> value -> bool;
  (** [EJSON.stringify(doc)] *)
  EJSON_stringify : value -> string;
  (** [EJSON.parse(cell)] *)
  EJSON_parse : value -> value;
  (** the n-th identifier [cuid()] hands out; never empty *)
  cuid : nat -> string;
  cuid_nonempty : forall n, cuid n <> "";
  (** the n-th reading of the clock, in milliseconds *)
  clock : nat -> Z;
  (** [a + b]; on two integers it is their sum, as long as a double holds
      them and the sum exactly *)
  js_add : value -> value -> value;
  js_add_num : forall a b, safe_integer a -> safe_integer b -> safe_integer (a + b) ->
                           js_add (VNum a) (VNum b) = VNum (a + b);
  (** the text a varchar column holds once a value other than null has
      been bound to it; a string is stored as it is, the rest is converted
      by the driver and the column's type *)
  sql_text : value -> string;
  sql_text_string : forall s, sql_text (VStr s) = s;
  (** rows in the order ORDER BY puts them (columns with [true] for
      ascending); it rearranges the rows and nothing else *)
  sql_order : list (string * bool) -> list obj -> list obj;
  sql_order_perm : forall ob rows, Permutation (sql_order ob rows) rows;
  (** what the engine throws when a PRIMARY KEY or UNIQUE constraint fails *)
  unique_error : error;
  (** what the engine throws when CREATE INDEX finds the index in place *)
  index_exists_error : error;
  (** any other error of the engine, from its message *)
  engine_error : string -> error
}.

(* ===================================================================== *)
(** ** The module's pure helpers *)
(* ===================================================================== *)

(** [for (const value of l) { if (value) { found = f(value); if (typeof
    found !== 'undefined') return found } } return undefined] *)
Definition scan_with (f : value -> value) : list value -> value :=
  fix scan (l : list value) : value :=
    match l with
    | [] => VUndef
    | v :: rest =>
        if truthy v
        then (let found := f v in if is_undef found then scan rest else found)
        else scan rest
    end.

(** The same loop over the values of an object. *)
Definition scan_obj (f : value -> value) : obj -> value :=
  fix scan (m : obj) : value :=
    match m with
    | [] => VUndef
    | (_, v) :: rest =>
        if truthy v
        then (let found := f v in if is_undef found then scan rest else found)
        else scan rest
    end.

(** [f(o.$and)] when the object has a [$and] property, [undefined] without. *)
Definition with_and (f : value -> value) : obj -> value :=
  fix go (kvs : obj) : value :=
    match kvs with
    | [] => VUndef
    | (k, a) :: rest => if String.eqb k "$and" then f a else go rest
    end.

(** [deepGet] on a one-character string: it has no [$and]. *)
Definition shallowGet (v : value) (key : string) : value :=
  if hasOwn v key then get v key else VUndef.

(** [function deepGet(criteria, key)], for [criteria] not null or
    undefined (the recursive calls are guarded by [if (value)]). *)
Fixpoint deepGet (criteria : value) (key : string) {struct criteria} : value :=
  if hasOwn criteria key then get criteria key
  else
    match criteria with
    | VObj kvs =>
        with_and
          (fun a =>
             match a with
             | VArr l => scan_with (fun v => deepGet v key) l
             | VObj m => scan_obj (fun v => deepGet v key) m
             | VStr s => scan_with (fun v => shallowGet v key) (chars s)
             | _ => VUndef
             end) kvs
    | _ => VUndef
    end.

(** [name.replace(/\./g, '__')] *)
Fixpoint mangleName (name : string) : string :=
  match name with
  | EmptyString => EmptyString
  | String c rest =>
      if Ascii.eqb c "."%char then String "_" (String "_" (mangleName rest))
      else String c (mangleName rest)
  end.

(** [function compatibleError(e)] *)
Definition compatibleError (e : error) : error :=
  if strict_eq (code e) (VStr "SQLITE_CONSTRAINT")
  then {| code := VNum 11000; message := "Not Unique" |}
  else e.

(** An index descriptor [{ fields, options }]. *)
Record index : Type := mkIndex { fields : value; options : value }.

(** The implicit index every collection starts with:
    [{ fields: { _id: 1 }, options: {} }]. *)
Definition id_index : index :=
  {| fields := VObj [("_id", VNum 1)]; options := VObj [] |}.

Section Rows.
Context `{Host}.

(** [function prepareForUpdate(indexes, doc)]; [doc._id] throws on a
    document that is null or undefined. *)
Definition prepareForUpdate (indexes : list index) (doc : value) : outcome obj :=
  if nullish doc then Throw type_error
  else
    let row := [("_id", get doc "_id");
                ("_ext_json", VStr (EJSON_stringify doc))] in
    Return
      (fold_left
         (fun row ix =>
            fold_left
              (fun row field => assign (mangleName field) (deepGet doc field) row)
              (keys (fields ix)) row)
         indexes row).

(** [function prepareForInsert(indexes, doc)]; [fresh] is what [cuid()]
    returns if it gets called.  The second component tells whether it was. *)
Definition prepareForInsert (indexes : list index) (doc : value) (fresh : string)
  : outcome obj * bool :=
  match prepareForUpdate indexes doc with
  | Throw e => (Throw e, false)
  | Return row =>
      let id := get doc "_id" in
      if truthy id then (Return (assign "_id" id row), false)
      else (Return (assign "_id" (VStr fresh) row), true)
  end.

End Rows.

(* ===================================================================== *)
(** ** The relational engine, as far as the module uses it *)
(* ===================================================================== *)

(** One table.  A row is the object knex hands back for it: column name to
    cell, a missing column or [null] being SQL NULL.  [t_indexes] lists the
    indexes created so far, each with its columns and whether it is unique.
    The columns are all created with [table.string] or [table.text], so a
    cell holds NULL or the text of the value that was bound. *)
Record table : Type := mkTable {
  t_columns : list string;
  t_indexes : list (list string * bool);
  t_rows : list obj
}.

(** [createTable(name, table => { table.string('_id').unique().primary();
    table.text('_ext_json', 'longtext') })] *)
Definition new_table : table :=
  {| t_columns := ["_id"; "_ext_json"]; t_indexes := []; t_rows := [] |}.

(** The query the module builds before awaiting it. *)
Record sql_query : Type := mkQuery {
  sq_orderBy : option (list (string * bool));
  sq_wheres : list (string * value);
  sq_offset : option Z;
  sq_limit : option Z
}.

Module Knex.

Definition hasColumn (c : string) (t : table) : bool :=
  existsb (String.eqb c) (t_columns t).

Definition cell (row : obj) (c : string) : value :=
  match lookup c row with
  | Some VUndef | None => VNull
  | Some v => v
  end.

(** The unique keys of the table: the primary key and the unique indexes. *)
Definition unique_keys (t : table) : list (list string) :=
  ["_id"] :: map fst (filter snd (t_indexes t)).

Section Engine.
Context `{Host}.

(** What a column holds once [v] has been bound to it: NULL for null, text
    for anything else. *)
Definition stored (v : value) : value :=
  if nullish v then VNull else VStr (sql_text v).

(** [column = v] in SQL, on a varchar column: never true on NULL, and
    otherwise a comparison of the text in the cell with the text of [v], so
    that the number 1 and the string ['1'] are equal when the engine writes
    the number as [1].  Two texts are equal when they are the same
    characters, which is how SQLite compares them. *)
Definition sql_eq (c v : value) : bool :=
  negb (nullish c) && negb (nullish v) && String.eqb (sql_text c) (sql_text v).

(** [.where(column, '=', v)]; knex turns a [null] into [IS NULL]. *)
Definition where_holds (row : obj) (w : string * value) : bool :=
  match snd w with
  | VNull => nullish (cell row (fst w))
  | v => sql_eq (cell row (fst w)) v
  end.

(** The cells of an INSERT or UPDATE: undefined ones are left out, the
    others are stored. *)
Definition bound_cells (row : obj) : obj :=
  map (fun kv => (fst kv, stored (snd kv)))
    (filter (fun kv => negb (is_undef (snd kv))) row).

(** Two rows collide on a unique key when they agree on all its columns
    and none of those cells is NULL. *)
Definition collide (cols : list string) (r1 r2 : obj) : bool :=
  forallb (fun c => sql_eq (cell r1 c) (cell r2 c)) cols.

Fixpoint distinct_on (cols : list string) (rows : list obj) : bool :=
  match rows with
  | [] => true
  | r :: rest =>
      forallb (fun r' => negb (collide cols r r')) rest && distinct_on cols rest
  end.

(** Pairs of rows of which at least one was touched must not collide. *)
Fixpoint touched_ok (cols : list string) (rows : list (bool * obj)) : bool :=
  match rows with
  | [] => true
  | (m, r) :: rest =>
      forallb (fun mr => negb ((m || fst mr) && collide cols r (snd mr))) rest
      && touched_ok cols rest
  end.

Definition undefined_binding : error :=
  js_error "Undefined binding(s) detected when compiling query".

Definition no_such_column (c : string) : error :=
  engine_error ("no such column: " ++ c).

(** [await knex(name).insert(row)] *)
Definition insert (row : obj) (t : table) : outcome unit * table :=
  match List.find (fun kv => negb (hasColumn (fst kv) t)) row with
  | Some kv => (Throw (no_such_column (fst kv)), t)
  | None =>
      let r := bound_cells row in
      if forallb (fun cols => forallb (fun r' => negb (collide cols r r')) (t_rows t))
           (unique_keys t)
      then (Return tt,
            {| t_columns := t_columns t; t_indexes := t_indexes t;
               t_rows := t_rows t ++ [r] |})
      else (Throw unique_error, t)
  end.

(** [await knex(name).update(row).where('_id', '=', id)]: the number of
    rows changed. *)
Definition update (row : obj) (id : value) (t : table) : outcome Z * table :=
  if is_undef id then (Throw undefined_binding, t)
  else
    let r := bound_cells row in
    match List.find (fun kv => negb (hasColumn (fst kv) t)) r with
    | Some kv => (Throw (no_such_column (fst kv)), t)
    | None =>
        let marked :=
          map (fun old =>
                 if where_holds old ("_id", id)
                 then (true, assign_all old r) else (false, old))
              (t_rows t) in
        if forallb (fun cols => touched_ok cols marked) (unique_keys t)
        then (Return (Z.of_nat (length (filter fst marked))),
              {| t_columns := t_columns t; t_indexes := t_indexes t;
                 t_rows := map snd marked |})
        else (Throw unique_error, t)
    end.

(** [await knex(name).where('_id', id).delete()]: the number of rows
    deleted. *)
Definition delete_where (id : value) (t : table) : outcome Z * table :=
  if is_undef id then (Throw undefined_binding, t)
  else
    let gone := fun r => where_holds r ("_id", id) in
    (Return (Z.of_nat (length (filter gone (t_rows t)))),
     {| t_columns := t_columns t; t_indexes := t_indexes t;
        t_rows := filter (fun r => negb (gone r)) (t_rows t) |}).

(** [await knex(name).whereIn('_id', ids).delete()] *)
Definition delete_whereIn (ids : list value) (t : table) : outcome Z * table :=
  if existsb is_undef ids then (Throw undefined_binding, t)
  else
    let gone := fun r => existsb (sql_eq (cell r "_id")) ids in
    (Return (Z.of_nat (length (filter gone (t_rows t)))),
     {| t_columns := t_columns t; t_indexes := t_indexes t;
        t_rows := filter (fun r => negb (gone r)) (t_rows t) |}).

(** [await query]: SELECT * with the WHERE conjunction and the ORDER BY of
    the query; OFFSET and LIMIT, when set, apply last.  Without ORDER BY
    the rows come in the order of the table; an engine that answers a WHERE
    through an index is free to choose another one, so no property below
    compares the order of the results of two different queries. *)
Definition select (q : sql_query) (t : table) : outcome (list obj) :=
  let ordered_cols := match sq_orderBy q with Some ob => map fst ob | None => [] end in
  match List.find (fun c => negb (hasColumn c t)) (ordered_cols ++ map fst (sq_wheres q)) with
  | Some c => Throw (no_such_column c)
  | None =>
      let hits := filter (fun r => forallb (where_holds r) (sq_wheres q)) (t_rows t) in
      let sorted := match sq_orderBy q with Some ob => sql_order ob hits | None => hits end in
      let after := match sq_offset q with Some n => slice_from n sorted | None => sorted end in
      Return (match sq_limit q with Some n => slice_to n after | None => after end)
  end.

(** [await knex.schema.alterTable(name, table => ...)] with one
    [table.string(c)] per new column followed by [table.unique(cols)] or
    [table.index(cols)].  The statements run one after the other, so the
    columns added before a failing statement stay. *)
Fixpoint add_columns (new : list string) (t : table) : outcome unit * table :=
  match new with
  | [] => (Return tt, t)
  | c :: rest =>
      if hasColumn c t
      then (Throw (engine_error ("duplicate column name: " ++ c)), t)
      else add_columns rest
             {| t_columns := t_columns t ++ [c]; t_indexes := t_indexes t;
                t_rows := t_rows t |}
  end.

Definition same_index (a b : list string * bool) : bool :=
  Bool.eqb (snd a) (snd b) &&
  String.eqb (String.concat "_" (fst a)) (String.concat "_" (fst b)).

Definition add_index (cols : list string) (unique : bool) (t : table)
  : outcome unit * table :=
  match cols with
  | [] => (Throw (engine_error "syntax error"), t)
  | _ =>
      if existsb (same_index (cols, unique)) (t_indexes t)
      then (Throw index_exists_error, t)
      else if unique && negb (distinct_on cols (t_rows t))
      then (Throw unique_error, t)
      else (Return tt,
            {| t_columns := t_columns t; t_indexes := t_indexes t ++ [(cols, unique)];
               t_rows := t_rows t |})
  end.

Definition alterTable (new : list string) (cols : list string) (unique : bool)
  (t : table) : outcome unit * table :=
  match add_columns new t with
  | (Throw e, t') => (Throw e, t')
  | (Return _, t') => add_index cols unique t'
  end.

End Engine.
End Knex.

(* ===================================================================== *)
(** ** The collection *)
(* ===================================================================== *)

(** What a collection object and its table hold once the background table
    creation has settled: the table, [self.indexes], [tableFailed], and how
    many identifiers and clock readings have been drawn from the host. *)
Record world : Type := mkWorld {
  w_table : table;
  w_indexes : list index;
  w_tableFailed : option error;
  w_cuids : nat;
  w_ticks : nat
}.

(** A collection right after [collection(name)] created its table. *)
Definition new_collection : world :=
  {| w_table := new_table; w_indexes := [id_index]; w_tableFailed := None;
     w_cuids := 0; w_ticks := 0 |}.

Definition set_table (t : table) (w : world) : world :=
  {| w_table := t; w_indexes := w_indexes w; w_tableFailed := w_tableFailed w;
     w_cuids := w_cuids w; w_ticks := w_ticks w |}.

(** An async method: it returns or throws, and leaves a world behind
    either way. *)
Definition M (A : Type) : Type := world -> outcome A * world.

Definition ret {A} (a : A) : M A := fun w => (Return a, w).
Definition throw {A} (e : error) : M A := fun w => (Throw e, w).
Definition bind {A B} (m : M A) (k : A -> M B) : M B :=
  fun w => match m w with
           | (Return a, w') => k a w'
           | (Throw e, w') => (Throw e, w')
           end.
(** [try { m } catch (e) { throw f(e) }] *)
Definition rethrow {A} (f : error -> error) (m : M A) : M A :=
  fun w => match m w with
           | (Return a, w') => (Return a, w')
           | (Throw e, w') => (Throw (f e), w')
           end.
Definition lift {A} (o : outcome A) : M A := fun w => (o, w).
(** a call into knex, which acts on the table *)
Definition knex {A} (f : table -> outcome A * table) : M A :=
  fun w => let (o, t) := f (w_table w) in (o, set_table t w).

Declare Scope js_scope.
Delimit Scope js_scope with js.
Notation "x <- m ;; k" := (bind m (fun x => k))
  (at level 61, m at next level, right associativity) : js_scope.
Notation "m ;; k" := (bind m (fun _ => k))
  (at level 61, right associativity) : js_scope.
Local Open Scope js_scope.

(** [{ result: { <field>: n } }] *)
Definition result (field : string) (n : Z) : value :=
  VObj [("result", VObj [(field, VNum n)])].

(** The cursor [query(collection, criteria)] returns: the criteria and the
    three parameters [sort], [skip] and [limit] set ([None] is the initial
    [null]).  Sort directions and counts are numbers. *)
Record query : Type := mkCursor {
  q_criteria : value;
  sortParams : option (list (string * Z));
  skipParam : option Z;
  limitParam : option Z
}.

(** [find(criteria = {})] *)
Definition find (criteria : value) : query :=
  {| q_criteria := if is_undef criteria then VObj [] else criteria;
     sortParams := None; skipParam := None; limitParam := None |}.

Definition sort (params : list (string * Z)) (q : query) : query :=
  {| q_criteria := q_criteria q; sortParams := Some params;
     skipParam := skipParam q; limitParam := limitParam q |}.

Definition skip (n : Z) (q : query) : query :=
  {| q_criteria := q_criteria q; sortParams := sortParams q;
     skipParam := Some n; limitParam := limitParam q |}.

Definition limit (n : Z) (q : query) : query :=
  {| q_criteria := q_criteria q; sortParams := sortParams q;
     skipParam := skipParam q; limitParam := Some n |}.

(** [project(projection = {})] does nothing. *)
Definition project (projection : value) (q : query) : query := q.

(** [if (n)] on a parameter that is [null] or a number *)
Definition given (p : option Z) : option Z :=
  match p with
  | Some n => if Z.eqb n 0 then None else Some n
  | None => None
  end.

(** The inner loop of [toArray] over the fields of one index: an equality
    per field whose value in the criteria is defined and not an object,
    up to the first field that has none. *)
Fixpoint index_wheres (criteria : value) (columnNames : list string)
  : list (string * value) :=
  match columnNames with
  | [] => []
  | columnName :: rest =>
      let value := deepGet criteria columnName in
      if negb (is_undef value) && typeof_not_object value
      then (columnName, value) :: index_wheres criteria rest
      else []
  end.

Definition wheres (indexes : list index) (criteria : value) : list (string * value) :=
  flat_map (fun ix => index_wheres criteria (keys (fields ix))) indexes.

(** The query [toArray] builds.  [deepGet] throws on a null criteria, and
    it is called as soon as an index has a field. *)
Definition build_query (indexes : list index) (q : query) : outcome sql_query :=
  if nullish (q_criteria q)
     && existsb (fun ix => match keys (fields ix) with [] => false | _ => true end) indexes
  then Throw type_error
  else
    Return
      {| sq_orderBy :=
           match sortParams q with
           | Some params =>
               Some (map (fun cd => (fst cd, Z.ltb 0 (snd cd))) params)
           | None => None
           end;
         sq_wheres := wheres indexes (q_criteria q);
         sq_offset := None;
         sq_limit := None |}.

Section Collection.
Context `{Host}.

(** [async ready()], once the table creation has settled *)
Definition ready : M unit :=
  fun w => match w_tableFailed w with
           | Some e => (Throw e, w)
           | None => (Return tt, w)
           end.

(** [async createIndex(fields, options = {})] *)
Definition createIndex (fields options : value) : M unit :=
  ready ;;
  (if nullish fields then throw type_error else ret tt) ;;
  let options := if is_undef options then VObj [] else options in
  let columnNames := map mangleName (keys fields) in
  (fun w =>
     let w1 := {| w_table := w_table w;
                  w_indexes := w_indexes w ++ [{| fields := fields; options := options |}];
                  w_tableFailed := w_tableFailed w;
                  w_cuids := w_cuids w; w_ticks := w_ticks w |} in
     let new := filter (fun c => negb (Knex.hasColumn c (w_table w))) columnNames in
     let attempt : M unit :=
       match options with
       | VNull => throw type_error
       | _ => knex (Knex.alterTable new columnNames (truthy (get options "unique")))
       end in
     match attempt w1 with
     | (Throw e, w2) =>
         if includes "already exists" (error_toString e)
         then (Return tt, w2) else (Throw e, w2)
     | r => r
     end).

(** [async toArray()] of a cursor *)
Definition toArray (q : query) : M (list value) :=
  ready ;;
  indexes <- (fun w => (Return (w_indexes w), w)) ;;
  sq <- lift (build_query indexes q) ;;
  results <- knex (fun t => (Knex.select sq t, t)) ;;
  let sifter := sift (q_criteria q) in
  let filtered :=
    map (fun row => EJSON_parse (Knex.cell row "_ext_json"))
      (filter (fun row => sifter (EJSON_parse (Knex.cell row "_ext_json"))) results) in
  let filtered :=
    match given (skipParam q) with
    | Some n => slice_from n filtered
    | None => filtered
    end in
  let filtered :=
    match given (limitParam q) with
    | Some n => slice_to n filtered
    | None => filtered
    end in
  ret filtered.

(** [async count()] of a cursor *)
Definition cursor_count (q : query) : M Z :=
  l <- toArray q ;; ret (Z.of_nat (length l)).

Definition countDocuments (criteria : value) : M Z :=
  l <- toArray (find criteria) ;; ret (Z.of_nat (length l)).

Definition count (criteria : value) : M Z := countDocuments criteria.

Definition findOne (criteria : value) : M value :=
  l <- toArray (limit 1 (find criteria)) ;; ret (nth 0 l VUndef).

(** [match._id]; it throws on a document that is null or undefined *)
Definition id_of (doc : value) : outcome value :=
  if nullish doc then Throw type_error else Return (get doc "_id").

Definition deleteOne (criteria : value) : M value :=
  l <- toArray (limit 1 (find criteria)) ;;
  let matching := nth 0 l VUndef in
  if negb (truthy matching) then ret (result "nDeleted" 0)
  else
    n <- knex (Knex.delete_where (get matching "_id")) ;;
    ret (result "nDeleted" n).

Fixpoint map_outcome {A B} (f : A -> outcome B) (l : list A) : outcome (list B) :=
  match l with
  | [] => Return []
  | a :: rest =>
      match f a with
      | Throw e => Throw e
      | Return b =>
          match map_outcome f rest with
          | Throw e => Throw e
          | Return bs => Return (b :: bs)
          end
      end
  end.

Definition deleteMany (criteria : value) : M value :=
  matching <- toArray (limit 1 (find criteria)) ;;
  ids <- lift (map_outcome id_of matching) ;;
  match ids with
  | [] => ret (result "nDeleted" 0)
  | _ =>
      n <- knex (Knex.delete_whereIn ids) ;;
      ret (result "nDeleted" n)
  end.

Definition removeOne (criteria : value) : M value := deleteOne criteria.
Definition removeMany (criteria : value) : M value := deleteMany criteria.

(** [async distinct(propertyName, criteria = {})], for a property name
    that is not a member of [Object.prototype] *)
Definition distinct (propertyName : string) (criteria : value) : M (list value) :=
  l <- toArray (find criteria) ;;
  props <- lift (map_outcome
                   (fun d => if nullish d then Throw type_error
                             else Return (get d propertyName)) l) ;;
  ret (set_of props).

(** [await knex(name).insert(prepareForInsert(self.indexes, doc))] *)
Definition insert_doc (doc : value) : M unit :=
  fun w =>
    match prepareForInsert (w_indexes w) doc (cuid (w_cuids w)) with
    | (Throw e, _) => (Throw e, w)
    | (Return row, drawn) =>
        let w1 := {| w_table := w_table w; w_indexes := w_indexes w;
                     w_tableFailed := w_tableFailed w;
                     w_cuids := if drawn then S (w_cuids w) else w_cuids w;
                     w_ticks := w_ticks w |} in
        knex (Knex.insert row) w1
    end.

Definition insertOne (doc : value) : M value :=
  ready ;;
  rethrow compatibleError
    (insert_doc doc ;; ret (result "nModified" 1)).

Fixpoint insert_each (docs : list value) : M unit :=
  match docs with
  | [] => ret tt
  | doc :: rest => insert_doc doc ;; insert_each rest
  end.

Definition insertMany (docs : list value) : M value :=
  ready ;;
  rethrow compatibleError
    (insert_each docs ;; ret (result "nModified" (Z.of_nat (length docs)))).

(** [await knex(name).update(prepareForUpdate(self.indexes, doc))
      .where('_id', '=', doc._id)] *)
Definition update_doc (doc : value) : M Z :=
  indexes <- (fun w => (Return (w_indexes w), w)) ;;
  row <- lift (prepareForUpdate indexes doc) ;;
  knex (Knex.update row (get doc "_id")).

Definition replaceOne (doc : value) : M value :=
  ready ;;
  update_doc doc ;;
  ret (result "nModified" 1).

(** *** Update operators *)

(** [doc[prop] = v] and [delete doc[prop]] on the document being updated.
    Documents are mappings; on anything else the model leaves the value as
    it is (JavaScript does so for primitives).  Every name is the name of
    a property here, [__proto__] too, which JavaScript treats as one only
    on a document that has it as an own property. *)
Definition set_prop (doc : value) (prop : string) (v : value) : value :=
  match doc with
  | VObj o => VObj (assign prop v o)
  | _ => doc
  end.

Definition delete_prop (doc : value) (prop : string) : value :=
  match doc with
  | VObj o => VObj (remove prop o)
  | _ => doc
  end.

(** [Object.entries(v)], which throws on null and undefined *)
Definition entries_of (v : value) : outcome obj :=
  if nullish v then Throw type_error else Return (entries v).

(** [for (const x of l) { doc = step(doc, x) }] where a step may throw *)
Fixpoint each {A} (step : value -> A -> outcome value) (l : list A) (doc : value)
  : outcome value :=
  match l with
  | [] => Return doc
  | x :: rest =>
      match step doc x with
      | Throw e => Throw e
      | Return doc' => each step rest doc'
      end
  end.

(** [case '$set': Object.assign(doc, value)] *)
Definition op_set (doc arg : value) : outcome value :=
  Return (fold_left (fun d kv => set_prop d (fst kv) (snd kv)) (spread arg) doc).

(** [case '$unset': for (const prop of Object.keys(value)) delete doc[prop]] *)
Definition op_unset (doc arg : value) : outcome value :=
  match entries_of arg with
  | Throw e => Throw e
  | Return kvs => Return (fold_left delete_prop (map fst kvs) doc)
  end.

(** [case '$inc'] *)
Definition op_inc (doc arg : value) : outcome value :=
  match entries_of arg with
  | Throw e => Throw e
  | Return kvs =>
      Return
        (fold_left
           (fun doc pi =>
              let prop := fst pi in
              let increment := snd pi in
              let doc := if negb (hasOwn doc prop) then set_prop doc prop (VNum 0) else doc in
              set_prop doc prop (js_add (get doc prop) increment))
           kvs doc)
  end.

(** [case '$pull':
      doc[prop] = (doc[prop] || []).filter(value => value !== pulled)];
    [.filter] exists on arrays only: not on the other truthy values a
    document holds, and not on what [doc[prop]] finds in
    [Object.prototype]. *)
Definition pull_step (doc : value) (pp : string * value) : outcome value :=
  let prop := fst pp in
  let pulled := snd pp in
  match member doc prop with
  | None => Throw (js_error "(doc[prop] || []).filter is not a function")
  | Some found =>
      match js_or found (VArr []) with
      | VArr l =>
          Return (set_prop doc prop (VArr (filter (fun v => negb (strict_eq v pulled)) l)))
      | _ => Throw (js_error "(doc[prop] || []).filter is not a function")
      end
  end.

Definition op_pull (doc arg : value) : outcome value :=
  match entries_of arg with
  | Throw e => Throw e
  | Return kvs => each pull_step kvs doc
  end.

(** [case '$addToSet': doc[prop] = [...new Set(doc[prop] || [], added)]].
    The [Set] constructor takes one argument, an iterable: an array or a
    string here.  Its second argument, [added], is not looked at. *)
Definition addToSet_step (doc : value) (pa : string * value) : outcome value :=
  let prop := fst pa in
  let added := snd pa in
  match member doc prop with
  | None => Throw (js_error "object is not iterable")
  | Some found =>
      match js_or found (VArr []) with
      | VArr l => Return (set_prop doc prop (VArr (set_of l)))
      | VStr s => Return (set_prop doc prop (VArr (set_of (chars s))))
      | _ => Throw (js_error "object is not iterable")
      end
  end.

Definition op_addToSet (doc arg : value) : outcome value :=
  match entries_of arg with
  | Throw e => Throw e
  | Return kvs => each addToSet_step kvs doc
  end.

(** The [switch (key)] of [updateBody] *)
Definition apply_operator (doc : value) (kv : string * value) : outcome value :=
  let key := fst kv in
  let value := snd kv in
  if String.eqb key "$set" then op_set doc value
  else if String.eqb key "$unset" then op_unset doc value
  else if String.eqb key "$inc" then op_inc doc value
  else if String.eqb key "$pull" then op_pull doc value
  else if String.eqb key "$addToSet" then op_addToSet doc value
  else Throw (js_error ("@apostrophecms/sql does not support " ++ key)).

(** The first statement of [updateBody]: with a [$currentDate], a copy of
    the operations in which its keys are [$set] to [now]. *)
Definition rewrite_currentDate (operations : value) (now : value) : obj :=
  let ops := spread operations in
  let set := spread (js_or (get operations "$set") (VObj [])) in
  let set := fold_left (fun s key => assign key now s)
               (keys (get operations "$currentDate")) set in
  remove "$currentDate" (assign "$set" (VObj set) ops).

(** The operators as [updateBody] runs them; [operations.$currentDate]
    throws on null and undefined operations, and [new Date()] reads the
    clock only when there is a [$currentDate]. *)
Definition operators (operations : value) : M obj :=
  fun w =>
    if nullish operations then (Throw type_error, w)
    else if truthy (get operations "$currentDate")
    then (Return (rewrite_currentDate operations (VDate (clock (w_ticks w)))),
          {| w_table := w_table w; w_indexes := w_indexes w;
             w_tableFailed := w_tableFailed w;
             w_cuids := w_cuids w; w_ticks := S (w_ticks w) |})
    else (Return (entries operations), w).

(** [async updateBody(doc, operations)] *)
Definition updateBody (doc operations : value) : M value :=
  ops <- operators operations ;;
  doc <- lift (each apply_operator ops doc) ;;
  update_doc doc ;;
  ret (result "nModified" 1).

(** [operations.$set], which throws on null and undefined operations *)
Definition set_of_operations (operations : value) : outcome value :=
  if nullish operations then Throw type_error else Return (get operations "$set").

(** [options.upsert] with [options = {}] by default *)
Definition upsert_of (options : value) : outcome bool :=
  match options with
  | VNull => Throw type_error
  | _ => Return (truthy (get options "upsert"))
  end.

(** [async updateOne(criteria, operations, options = {})] *)
Definition updateOne (criteria operations options : value) : M value :=
  ready ;;
  doc <- findOne criteria ;;
  if negb (truthy doc) then
    upsert <- lift (upsert_of options) ;;
    if upsert then
      payload <- lift (set_of_operations operations) ;;
      insertOne payload
    else ret (result "nModified" 0)
  else updateBody doc operations.

Fixpoint update_each (docs : list value) (operations : value) : M unit :=
  match docs with
  | [] => ret tt
  | doc :: rest => updateBody doc operations ;; update_each rest operations
  end.

(** [async updateMany(criteria, operations, options = {})]; after the loop
    the function ends without a [return]. *)
Definition updateMany (criteria operations options : value) : M value :=
  ready ;;
  docs <- toArray (find criteria) ;;
  upsert <- lift (upsert_of options) ;;
  if upsert && match docs with [] => true | _ => false end then
    payload <- lift (set_of_operations operations) ;;
    insertOne payload
  else
    update_each docs operations ;;
    ret VUndef.

End Collection.

(* ===================================================================== *)
(** ** A host to run the model on *)
(* ===================================================================== *)

(** A codec with a prefix syntax, an equality-and-[$and] matcher, counters
    for identifiers and time, an insertion sort for ORDER BY.  The engine's
    error objects stay parameters: they are what differs between engines. *)
Module Reference.

Fixpoint print (v : value) : string :=
  (match v with
  | VUndef => "U"
  | VNull => "N"
  | VBool true => "T"
  | VBool false => "F"
  | VNum z => "I" ++ NilZero.string_of_int (Z.to_int z) ++ ";"
  | VDate z => "D" ++ NilZero.string_of_int (Z.to_int z) ++ ";"
  | VStr s => "S" ++ key_of_index (String.length s) ++ ":" ++ s
  | VArr l =>
      "[" ++ (fix items (l : list value) : string :=
                match l with
                | [] => "]"
                | x :: rest => print x ++ items rest
                end) l
  | VObj kvs =>
      "{" ++ (fix members (kvs : obj) : string :=
                match kvs with
                | [] => "}"
                | (k, x) :: rest =>
                    key_of_index (String.length k) ++ ":" ++ k ++ print x ++ members rest
                end) kvs
  end)%string.

(** the text before the first [stop], and the text after it *)
Fixpoint until (stop : ascii) (s : string) : option (string * string) :=
  match s with
  | EmptyString => None
  | String c rest =>
      if Ascii.eqb c stop then Some (EmptyString, rest)
      else match until stop rest with
           | Some (a, b) => Some (String c a, b)
           | None => None
           end
  end.

Definition number (s : string) : option (Z * string) :=
  match until ";" s with
  | Some (digits, rest) =>
      match NilZero.int_of_string digits with
      | Some i => Some (Z.of_int i, rest)
      | None => None
      end
  | None => None
  end.

Definition counted (s : string) : option (string * string) :=
  match until ":" s with
  | Some (digits, rest) =>
      match index_of_key digits with
      | Some n =>
          if Nat.leb n (String.length rest)
          then Some (substring 0 n rest, substring n (String.length rest - n) rest)
          else None
      | None => None
      end
  | None => None
  end.

Fixpoint read (fuel : nat) (s : string) : option (value * string) :=
  match fuel with
  | O => None
  | S fuel =>
      match s with
      | EmptyString => None
      | String c rest =>
          if Ascii.eqb c "U" then Some (VUndef, rest)
          else if Ascii.eqb c "N" then Some (VNull, rest)
          else if Ascii.eqb c "T" then Some (VBool true, rest)
          else if Ascii.eqb c "F" then Some (VBool false, rest)
          else if Ascii.eqb c "I" then
            match number rest with Some (z, r) => Some (VNum z, r) | None => None end
          else if Ascii.eqb c "D" then
            match number rest with Some (z, r) => Some (VDate z, r) | None => None end
          else if Ascii.eqb c "S" then
            match counted rest with Some (x, r) => Some (VStr x, r) | None => None end
          else if Ascii.eqb c "[" then
            match read_items fuel rest with Some (l, r) => Some (VArr l, r) | None => None end
          else if Ascii.eqb c "{" then
            match read_members fuel rest with Some (l, r) => Some (VObj l, r) | None => None end
          else None
      end
  end
with read_items (fuel : nat) (s : string) : option (list value * string) :=
  match fuel with
  | O => None
  | S fuel =>
      match s with
      | String "]" rest => Some ([], rest)
      | _ =>
          match read fuel s with
          | Some (x, r) =>
              match read_items fuel r with
              | Some (l, r') => Some (x :: l, r')
              | None => None
              end
          | None => None
          end
      end
  end
with read_members (fuel : nat) (s : string) : option (obj * string) :=
  match fuel with
  | O => None
  | S fuel =>
      match s with
      | String "}" rest => Some ([], rest)
      | _ =>
          match counted s with
          | Some (k, r) =>
              match read fuel r with
              | Some (x, r') =>
                  match read_members fuel r' with
                  | Some (l, r'') => Some ((k, x) :: l, r'')
                  | None => None
                  end
              | None => None
              end
          | None => None
          end
      end
  end.

Definition parse (cell : value) : value :=
  match cell with
  | VStr s =>
      match read (S (String.length s)) s with
      | Some (v, EmptyString) => v
      | _ => VUndef
      end
  | _ => VUndef
  end.

(** [{field: v}] holds of a document whose [field] is [v] or an array
    containing [v]; [{$and: [...]}] when every branch holds. *)
Definition field_matches (actual expected : value) : bool :=
  value_eqb actual expected ||
  match actual with
  | VArr l => existsb (fun x => value_eqb x expected) l
  | _ => false
  end.

Fixpoint matcher (criteria doc : value) {struct criteria} : bool :=
  match criteria with
  | VObj kvs =>
      (fix all (kvs : obj) : bool :=
         match kvs with
         | [] => true
         | (k, v) :: rest =>
             (if String.eqb k "$and"
              then match v with
                   | VArr l => forallb (fun c => matcher c doc) l
                   | _ => false
                   end
              else field_matches (get doc k) v)
             && all rest
         end) kvs
  | _ => false
  end.

Definition add (a b : value) : value :=
  match a, b with
  | VNum x, VNum y => VNum (x + y)
  | VStr x, VStr y => VStr (x ++ y)%string
  | _, _ => VUndef
  end.

(** The text of a bound value: a string as it is, a number in decimal, a
    boolean as 1 or 0, a date as its milliseconds, anything else in the
    codec's syntax. *)
Definition text (v : value) : string :=
  match v with
  | VStr s => s
  | VNum z => NilZero.string_of_int (Z.to_int z)
  | VBool true => "1"
  | VBool false => "0"
  | VDate ms => NilZero.string_of_int (Z.to_int ms)
  | _ => print v
  end.

(** NULL first, then numbers, then text, the rest last and unordered. *)
Definition cell_compare (a b : value) : comparison :=
  match a, b with
  | VNull, VNull => Eq
  | VNull, _ => Lt
  | _, VNull => Gt
  | VNum x, VNum y => Z.compare x y
  | VNum _, _ => Lt
  | _, VNum _ => Gt
  | VStr x, VStr y => String.compare x y
  | VStr _, _ => Lt
  | _, VStr _ => Gt
  | _, _ => Eq
  end.

Fixpoint row_leb (ob : list (string * bool)) (r1 r2 : obj) : bool :=
  match ob with
  | [] => true
  | (c, asc) :: rest =>
      match cell_compare (Knex.cell r1 c) (Knex.cell r2 c) with
      | Eq => row_leb rest r1 r2
      | Lt => asc
      | Gt => negb asc
      end
  end.

Fixpoint place (ob : list (string * bool)) (r : obj) (sorted : list obj) : list obj :=
  match sorted with
  | [] => [r]
  | x :: rest => if row_leb ob r x then r :: x :: rest else x :: place ob r rest
  end.

Definition order (ob : list (string * bool)) (rows : list obj) : list obj :=
  fold_right (place ob) [] rows.

Definition fresh_id (n : nat) : string := String "c" (key_of_index n).

End Reference.

Module ReferenceHost.
Import Reference.

Lemma place_perm (ob : list (string * bool)) (r : obj) (sorted : list obj) :
  Permutation (place ob r sorted) (r :: sorted).
Proof.
  induction sorted as [|x rest IH]; simpl.
  - apply Permutation_refl.
  - destruct (row_leb ob r x).
    + apply Permutation_refl.
    + eapply perm_trans; [apply perm_skip, IH | apply perm_swap].
Qed.

Lemma order_perm (ob : list (string * bool)) (rows : list obj) :
  Permutation (order ob rows) rows.
Proof.
  induction rows as [|r rest IH]; simpl.
  - apply perm_nil.
  - eapply perm_trans; [apply place_perm | apply perm_skip, IH].
Qed.

Lemma fresh_id_nonempty (n : nat) : fresh_id n <> "".
Proof. discriminate. Qed.

Lemma add_num (a b : Z) :
  safe_integer a -> safe_integer b -> safe_integer (a + b) ->
  add (VNum a) (VNum b) = VNum (a + b).
Proof. reflexivity. Qed.

Lemma text_string (s : string) : text (VStr s) = s.
Proof. reflexivity. Qed.

(** The host over an engine that throws [ue] on a uniqueness failure and
    [ie] on an index that exists. *)
Definition host (ue ie : error) (ee : string -> error) : Host :=
  {| sift := matcher;
     EJSON_stringify := print;
     EJSON_parse := parse;
     cuid := fresh_id;
     cuid_nonempty := fresh_id_nonempty;
     clock := fun n => (1700000000000 + Z.of_nat n)%Z;
     js_add := add;
     js_add_num := add_num;
     sql_text := text;
     sql_text_string := text_string;
     sql_order := order;
     sql_order_perm := order_perm;
     unique_error := ue;
     index_exists_error := ie;
     engine_error := ee |}.

(** SQLite through knex: [SQLITE_CONSTRAINT] on a uniqueness failure. *)
Definition sqlite : Host :=
  host {| code := VStr "SQLITE_CONSTRAINT";
          message := "SQLITE_CONSTRAINT: UNIQUE constraint failed" |}
       {| code := VStr "SQLITE_ERROR";
          message := "SQLITE_ERROR: index already exists" |}
       (fun msg => {| code := VStr "SQLITE_ERROR"; message := "SQLITE_ERROR: " ++ msg |}).

(** PostgreSQL through knex: SQLSTATE 23505 on a uniqueness failure. *)
Definition postgres : Host :=
  host {| code := VStr "23505";
          message := "duplicate key value violates unique constraint" |}
       {| code := VStr "42P07";
          message := "relation already exists" |}
       (fun msg => {| code := VStr "42703"; message := msg |}).

End ReferenceHost.

(** [module.exports = ({ knex }) => ...] followed by [db().collection(name)]:
    of the options object the factory reads [knex] and nothing else, so the
    collection it hands out does not depend on [options.metadata]. *)
Definition collection_of (options : value) : world := new_collection.

(** The collection with the index descriptors [I] registered after the
    implicit one. *)
Definition with_indexes (I : list index) (w : world) : world :=
  {| w_table := w_table w; w_indexes := id_index :: I;
     w_tableFailed := w_tableFailed w;
     w_cuids := w_cuids w; w_ticks := w_ticks w |}.

(** The document a row decodes to. *)
Definition decode `{Host} (row : obj) : value :=
  EJSON_parse (Knex.cell row "_ext_json").

Definition rows (w : world) : list obj := t_rows (w_table w).

Definition outcome_map {A B} (f : A -> B) (o : outcome A) : outcome B :=
  match o with
  | Return a => Return (f a)
  | Throw e => Throw e
  end.

(* ===================================================================== *)
(** ** The client and the readiness of the table *)
(* ===================================================================== *)

(** [db(name)] of the client object; [names] is the [Set] the factory
    closes over, in insertion order.  Names are compared as [Set] does,
    which is [===] on the strings a database name is.  The object returned,
    [{ collection, close }], carries no state of its own. *)
Definition db (name : value) (names : list value) : outcome unit * list value :=
  if truthy name then
    if Nat.ltb 0 (length names) && negb (existsb (strict_eq name) names)
    then (Throw (js_error
                   "@apostrophecms/sql is not currently able to manage multiple databases through one client connection"),
          names)
    else (Return tt,
          if existsb (strict_eq name) names then names else names ++ [name])
  else (Return tt, names).

(** [isConnected()] *)
Definition isConnected : bool := true.

(** The calls [db(n1)], [db(n2)], ... on one client, each caught by the
    caller: the names the client ends up with. *)
Definition db_calls (calls : list value) : list value :=
  fold_left (fun names name => snd (db name names)) calls [].

(** What [collection(name)] closes over while its table is being prepared:
    [tablePending], [tableFailed] ([None] is the initial [false]) and the
    callers waiting in [readyQueue], oldest first. *)
Record gate : Type := mkGate {
  tablePending : bool;
  tableFailed : option error;
  readyQueue : list nat
}.

Definition new_gate : gate :=
  {| tablePending := true; tableFailed := None; readyQueue := [] |}.

(** What a caller of [ready()] gets: a promise that is settled already, or
    one that stays pending until the queue is released. *)
Inductive answer : Type :=
| Now (o : outcome unit)
| Later.

(** [async ready()], called by [caller] *)
Definition gate_ready (caller : nat) (g : gate) : answer * gate :=
  match tableFailed g with
  | Some e => (Now (Throw e), g)
  | None =>
      if negb (tablePending g) then (Now (Return tt), g)
      else (Later,
            {| tablePending := tablePending g; tableFailed := tableFailed g;
               readyQueue := readyQueue g ++ [caller] |})
  end.

(** The body of the [try] in the background function:
    [if (!await knex.schema.hasTable(name)) { await knex.schema.createTable(...) }],
    given what the two schema calls do. *)
Definition prepare_table (hasTable : outcome bool) (createTable : outcome unit)
  : outcome unit :=
  match hasTable with
  | Throw e => Throw e
  | Return true => Return tt
  | Return false => createTable
  end.

(** The rest of the background function: on success [tablePending = false]
    and every queued item is resolved; on failure [tableFailed = e] and
    every queued item is rejected with [e].  The second component lists
    the settlements in the order they are made. *)
Definition settle (prepared : outcome unit) (g : gate)
  : gate * list (nat * outcome unit) :=
  match prepared with
  | Return _ =>
      ({| tablePending := false; tableFailed := tableFailed g;
          readyQueue := readyQueue g |},
       map (fun caller => (caller, Return tt)) (readyQueue g))
  | Throw e =>
      ({| tablePending := tablePending g; tableFailed := Some e;
          readyQueue := readyQueue g |},
       map (fun caller => (caller, Throw e)) (readyQueue g))
  end.

(** [ready()] called by each of [callers] in turn *)
Fixpoint gate_calls (callers : list nat) (g : gate) : list (nat * answer) * gate :=
  match callers with
  | [] => ([], g)
  | c :: rest =>
      let (a, g1) := gate_ready c g in
      let (l, g2) := gate_calls rest g1 in
      ((c, a) :: l, g2)
  end.

(** The collection a settled gate stands for. *)
Definition settled_world (g : gate) (w : world) : world :=
  {| w_table := w_table w; w_indexes := w_indexes w;
     w_tableFailed := tableFailed g;
     w_cuids := w_cuids w; w_ticks := w_ticks w |}.

(* ===================================================================== *)
(** ** Notions the properties are stated with *)
(* ===================================================================== *)

Section Derived.
Context `{Host}.

(** What [toArray] does before it looks at [skip] and [limit]. *)
Definition matched (q : query) (w : world) : outcome (list value) :=
  match w_tableFailed w with
  | Some e => Throw e
  | None =>
      match build_query (w_indexes w) q with
      | Throw e => Throw e
      | Return sq =>
          match Knex.select sq (w_table w) with
          | Throw e => Throw e
          | Return results =>
              Return (map decode (filter (fun row => sift (q_criteria q) (decode row)) results))
          end
      end
  end.

Definition paginate (q : query) (docs : list value) : list value :=
  let docs := match given (skipParam q) with
              | Some n => slice_from n docs
              | None => docs
              end in
  match given (limitParam q) with
  | Some n => slice_to n docs
  | None => docs
  end.

(** [updateBody]'s operator loop on the single operator [{$pull: {p: v}}] *)
Definition pull (p : string) (v : value) (doc : value) : outcome value :=
  each apply_operator [("$pull", VObj [(p, v)])] doc.

(** [updateBody]'s operator loop on [{$addToSet: {p: v}}] *)
Definition addToSet (p : string) (v : value) (doc : value) : outcome value :=
  each apply_operator [("$addToSet", VObj [(p, v)])] doc.

(** No registered index has a field whose column would be the blob column. *)
Definition no_blob_field (indexes : list index) : bool :=
  forallb (fun ix => forallb (fun f => negb (String.eqb (mangleName f) "_ext_json"))
                       (keys (fields ix))) indexes.

(** The row [prepareForUpdate] builds for a document. *)
Definition promoted (indexes : list index) (doc : value) (row : obj) : obj :=
  fold_left
    (fun row ix =>
       fold_left (fun row field => assign (mangleName field) (deepGet doc field) row)
         (keys (fields ix)) row)
    indexes row.

(** The primary key of the table: no two rows with the same [_id]. *)
Definition primary_key (w : world) : Prop :=
  Knex.distinct_on ["_id"] (rows w) = true.

(** A method that leaves the primary key in place. *)
Definition keeps_key {A} (m : M A) : Prop :=
  forall w, primary_key w -> primary_key (snd (m w)).

End Derived.

(* ===================================================================== *)
(** ** Scenarios *)
(* ===================================================================== *)

Module Scenario.
Import ReferenceHost.

Definition str_obj (kvs : list (string * string)) : value :=
  VObj (map (fun kv => (fst kv, VStr (snd kv))) kvs).

Definition pypy : value :=
  str_obj [("_id", "1"); ("name", "pypy"); ("fur", "black")].
Definition spike : value :=
  str_obj [("_id", "2"); ("name", "spike"); ("fur", "tortoiseshell")].
Definition spyspy : value :=
  str_obj [("_id", "3"); ("name", "spyspy"); ("fur", "black")].

Definition black : value := str_obj [("fur", "black")].
Definition fur_index : index :=
  {| fields := VObj [("fur", VNum 1)]; options := VObj [] |}.

(** run a method on a collection and keep the collection *)
Definition after {A} (m : M A) (w : world) : world := snd (m w).

(** insert, then index: the row's [fur] column is NULL *)
Definition indexed_late : world :=
  after (@createIndex sqlite (VObj [("fur", VNum 1)]) VUndef)
    (after (@insertOne sqlite pypy) new_collection).

(** index, then insert *)
Definition indexed_first : world :=
  after (@insertOne sqlite spike)
    (after (@insertOne sqlite pypy)
       (after (@createIndex sqlite (VObj [("fur", VNum 1)]) VUndef) new_collection)).

Definition three_cats : world :=
  after (@insertOne sqlite spyspy)
    (after (@insertOne sqlite spike)
       (after (@insertOne sqlite pypy) new_collection)).

(** a unique index on [name] and one document *)
Definition unique_names (h : Host) : world :=
  after (@insertOne h pypy)
    (after (@createIndex h (VObj [("name", VNum 1)]) (VObj [("unique", VBool true)]))
       new_collection).

Definition pypy_again : value :=
  str_obj [("_id", "9"); ("name", "pypy"); ("fur", "white")].

(** [require('@apostrophecms/sql')({ knex, metadata: { folder, locked: true } })] *)
Definition locked_options : value :=
  VObj [("metadata", VObj [("folder", VStr "sql-metadata"); ("locked", VBool true)])].

Definition locked_collection : world :=
  after (@insertOne sqlite pypy) (collection_of locked_options).

Definition one_cat : world := after (@insertOne sqlite pypy) new_collection.

Definition nested : value :=
  VObj [("_id", VStr "1"); ("a", VObj [("b", VStr "stale")])].

(** a document, then columns for [a] and [a.b], then a writer that sets
    the [a__b] column of the row to a newer value *)
Definition promoted_ahead : world :=
  after (@knex unit (fun t =>
           let (_, t') := @Knex.update sqlite [("a__b", VStr "fresh")] (VStr "1") t in
           (Return tt, t')))
    (after (@createIndex sqlite (VObj [("a.b", VNum 1)]) VUndef)
       (after (@createIndex sqlite (VObj [("a", VNum 1)]) VUndef)
          (after (@insertOne sqlite nested) new_collection))).

Definition tagged : value :=
  VObj [("_id", VStr "1"); ("tags", VArr [VStr "a"])].

Definition tagged_collection : world :=
  after (@insertOne sqlite tagged) new_collection.




(** a unique index on [n] and a document whose [n] is the number 1 *)
Definition unique_numbers : world :=
  after (@insertOne sqlite (VObj [("_id", VStr "a"); ("n", VNum 1)]))
    (after (@createIndex sqlite (VObj [("n", VNum 1)]) (VObj [("unique", VBool true)]))
       new_collection).

End Scenario.

(* ===================================================================== *)
(** ** Basic facts *)
(* ===================================================================== *)

Section ValueInduction.
Variable P : value -> Prop.
Hypothesis Hundef : P VUndef.
Hypothesis Hnull : P VNull.
Hypothesis Hbool : forall b, P (VBool b).
Hypothesis Hnum : forall z, P (VNum z).
Hypothesis Hstr : forall s, P (VStr s).
Hypothesis Hdate : forall z, P (VDate z).
Hypothesis Harr : forall l, Forall P l -> P (VArr l).
Hypothesis Hobj : forall kvs, Forall (fun kv => P (snd kv)) kvs -> P (VObj kvs).

Fixpoint value_nested_ind (v : value) : P v :=
  match v with
  | VUndef => Hundef
  | VNull => Hnull
  | VBool b => Hbool b
  | VNum z => Hnum z
  | VStr s => Hstr s
  | VDate z => Hdate z
  | VArr l =>
      Harr l ((fix all (l : list value) : Forall P l :=
                 match l with
                 | [] => Forall_nil P
                 | x :: rest => Forall_cons x (value_nested_ind x) (all rest)
                 end) l)
  | VObj kvs =>
      Hobj kvs ((fix all (kvs : obj) : Forall (fun kv => P (snd kv)) kvs :=
                   match kvs with
                   | [] => Forall_nil _
                   | kv :: rest =>
                       Forall_cons kv (value_nested_ind (snd kv)) (all rest)
                   end) kvs)
  end.
End ValueInduction.

Lemma value_eqb_eq (a c : value) : value_eqb a c = true <-> a = c.
Proof.
  revert c. induction a using value_nested_ind; intros c; destruct c;
    simpl; try (split; [discriminate | intros E; discriminate E]);
    try (split; reflexivity).
  - rewrite Bool.eqb_true_iff. split; congruence.
  - rewrite Z.eqb_eq. split; congruence.
  - rewrite String.eqb_eq. split; congruence.
  - rewrite Z.eqb_eq. split; congruence.
  - revert l0. induction H as [|x l Hx Hl IH]; intros [|y m].
    + split; reflexivity.
    + split; [discriminate | intros E; discriminate E].
    + split; [discriminate | intros E; discriminate E].
    + rewrite andb_true_iff, Hx, IH. split.
      * intros [-> E]. injection E as ->. reflexivity.
      * intros E. injection E as -> ->. split; reflexivity.
  - revert kvs0. induction H as [|[k x] l Hx Hl IH]; intros [|[k' y] m].
    + split; reflexivity.
    + split; [discriminate | intros E; discriminate E].
    + split; [discriminate | intros E; discriminate E].
    + simpl in Hx. rewrite !andb_true_iff, String.eqb_eq, Hx, IH. split.
      * intros [[-> ->] E]. injection E as ->. reflexivity.
      * intros E. injection E as -> -> ->. repeat split; reflexivity.
Qed.

Lemma value_eqb_refl (a : value) : value_eqb a a = true.
Proof. apply value_eqb_eq. reflexivity. Qed.

Lemma clamp_nonneg (len : nat) (i : Z) :
  (0 <= i)%Z -> clamp len i = Nat.min (Z.to_nat i) len.
Proof.
  intros Hi. unfold clamp.
  destruct (Z.ltb_spec i 0); [lia | reflexivity].
Qed.

Lemma slice_from_skipn {A} (n : Z) (l : list A) :
  (0 <= n)%Z -> slice_from n l = skipn (Z.to_nat n) l.
Proof.
  intros Hn. unfold slice_from. rewrite clamp_nonneg by exact Hn.
  destruct (Nat.le_ge_cases (Z.to_nat n) (length l)) as [Hle|Hge].
  - rewrite Nat.min_l by exact Hle. reflexivity.
  - rewrite Nat.min_r by exact Hge.
    rewrite !skipn_all2; [reflexivity | exact Hge | apply Nat.le_refl].
Qed.

Lemma slice_to_firstn {A} (n : Z) (l : list A) :
  (0 <= n)%Z -> slice_to n l = firstn (Z.to_nat n) l.
Proof.
  intros Hn. unfold slice_to. rewrite clamp_nonneg by exact Hn.
  destruct (Nat.le_ge_cases (Z.to_nat n) (length l)) as [Hle|Hge].
  - rewrite Nat.min_l by exact Hle. reflexivity.
  - rewrite Nat.min_r by exact Hge.
    rewrite !firstn_all2; [reflexivity | exact Hge | apply Nat.le_refl].
Qed.

(* ===================================================================== *)
(** ** Reading: [toArray] *)
(* ===================================================================== *)

Section Reading.
Context `{Host}.

(** *** [deepGet] *)

Lemma with_and_lookup (f : value -> value) (kvs : obj) :
  with_and f kvs = match lookup "$and" kvs with Some a => f a | None => VUndef end.
Proof.
  induction kvs as [|[k a] kvs IH]; simpl; [reflexivity|].
  destruct (String.eqb k "$and"); [reflexivity | exact IH].
Qed.

Lemma scan_obj_values (f : value -> value) (m : obj) :
  scan_obj f m = scan_with f (map snd m).
Proof.
  induction m as [|[k v] m IH]; simpl; [reflexivity|].
  rewrite IH. reflexivity.
Qed.

Lemma values_indexed (l : list value) : map snd (indexed l) = l.
Proof.
  unfold indexed. generalize 0%nat as start.
  induction l as [|x l IH]; intros start; simpl; [reflexivity|].
  rewrite IH. reflexivity.
Qed.

(** [deepGet] on an object, as the source reads: the own property when
    there is one, otherwise the first defined result among the truthy
    members of [criteria.$and]. *)
Lemma deepGet_object (kvs : obj) (key : string) :
  deepGet (VObj kvs) key =
  match lookup key kvs with
  | Some v => v
  | None =>
      match js_or (get (VObj kvs) "$and") (VArr []) with
      | VStr s => scan_with (fun v => shallowGet v key) (chars s)
      | a => scan_with (fun v => deepGet v key) (values a)
      end
  end.
Proof.
  simpl. destruct (lookup key kvs) as [v|]; [reflexivity|].
  rewrite with_and_lookup. unfold js_or.
  destruct (lookup "$and" kvs) as [a|]; [|reflexivity].
  destruct a as [| |b|z|s|z|l|m]; simpl; try reflexivity.
  - destruct b; reflexivity.
  - destruct (Z.eqb z 0); reflexivity.
  - destruct s; reflexivity.
  - unfold values, entries. rewrite values_indexed. reflexivity.
  - apply scan_obj_values.
Qed.

Example deepGet_through_and :
  deepGet (VObj [("$and", VArr [VNull; VObj [("a", VNum 1)];
                                VObj [("$and", VArr [VObj [("b", VStr "x")]])];
                                VObj [("b", VStr "y")]])]) "b" = VStr "x".
Proof. reflexivity. Qed.

Example mangleName_dots : mangleName "a.b.c" = "a__b__c".
Proof. reflexivity. Qed.

Lemma set_table_same (w : world) : set_table (w_table w) w = w.
Proof. destruct w; reflexivity. Qed.

Lemma toArray_matched (q : query) (w : world) :
  toArray q w = (outcome_map (paginate q) (matched q w), w).
Proof.
  unfold toArray, matched, bind, ready, lift, knex, ret, paginate, decode.
  destruct (w_tableFailed w); [reflexivity|].
  destruct (build_query (w_indexes w) q); [|reflexivity].
  destruct (Knex.select a (w_table w)); rewrite set_table_same; reflexivity.
Qed.

Lemma build_query_no_paging (indexes : list index) (q : query) (sq : sql_query) :
  build_query indexes q = Return sq -> sq_offset sq = None /\ sq_limit sq = None.
Proof.
  unfold build_query.
  destruct (_ && _); [discriminate|].
  intros E. injection E as <-. split; reflexivity.
Qed.

Lemma matched_skip_limit (q : query) (s l : Z) (w : world) :
  matched (limit l (skip s q)) w = matched q w.
Proof. reflexivity. Qed.

Lemma paginate_find (P : value) (docs : list value) :
  paginate (find P) docs = docs.
Proof. reflexivity. Qed.

Lemma paginate_counts (q : query) (s l : Z) (docs : list value) :
  (0 <= s)%Z -> (0 <= l)%Z ->
  paginate (limit l (skip s q)) docs =
  if Z.eqb l 0 then skipn (Z.to_nat s) docs
  else firstn (Z.to_nat l) (skipn (Z.to_nat s) docs).
Proof.
  intros Hs Hl. unfold paginate, limit, skip, given; simpl.
  assert (Hskip : match (if Z.eqb s 0 then None else Some s) with
                  | Some n => slice_from n docs
                  | None => docs
                  end = skipn (Z.to_nat s) docs).
  { destruct (Z.eqb_spec s 0) as [->|_]; [reflexivity|].
    apply slice_from_skipn, Hs. }
  rewrite Hskip.
  destruct (Z.eqb l 0); [reflexivity|].
  apply slice_to_firstn, Hl.
Qed.

(** C6 (as amended): the relational query [toArray] builds carries no OFFSET
    and no LIMIT; for counts [s >= 0] and [l > 0],
    [find(P).skip(s).limit(l).toArray()] is [find(P).toArray()] with the
    first [s] documents dropped and then at most [l] kept; [limit(0)] keeps
    everything that is left after the skip, like a cursor without limit. *)
Theorem skip_limit_after_filter (w : world) (P : value) (s l : Z) :
  (0 <= s)%Z -> (0 <= l)%Z ->
  (forall sq, build_query (w_indexes w) (limit l (skip s (find P))) = Return sq ->
              sq_offset sq = None /\ sq_limit sq = None) /\
  toArray (limit l (skip s (find P))) w =
  (outcome_map
     (fun docs => if Z.eqb l 0 then skipn (Z.to_nat s) docs
                  else firstn (Z.to_nat l) (skipn (Z.to_nat s) docs))
     (fst (toArray (find P) w)),
   snd (toArray (find P) w)).
Proof.
  intros Hs Hl. split.
  - intros sq. apply build_query_no_paging.
  - rewrite !toArray_matched, matched_skip_limit. simpl.
    destruct (matched (find P) w) as [docs|e]; simpl; [|reflexivity].
    rewrite paginate_counts by assumption. reflexivity.
Qed.

(** *** Pushdown *)

Lemma wheres_cons (ix : index) (I : list index) (criteria : value) :
  wheres (ix :: I) criteria = index_wheres criteria (keys (fields ix)) ++ wheres I criteria.
Proof. reflexivity. Qed.

Lemma build_query_with_id (I : list index) (q : query) :
  build_query (id_index :: I) q =
  if nullish (q_criteria q) then Throw type_error
  else Return {| sq_orderBy :=
                   match sortParams q with
                   | Some params =>
                       Some (map (fun cd => (fst cd, Z.ltb 0 (snd cd))) params)
                   | None => None
                   end;
                 sq_wheres := index_wheres (q_criteria q) ["_id"]
                              ++ wheres I (q_criteria q);
                 sq_offset := None; sq_limit := None |}.
Proof.
  unfold build_query. cbn [existsb id_index fields keys entries map fst].
  rewrite orb_true_l, andb_true_r. reflexivity.
Qed.

Lemma select_unordered (ws : list (string * value)) (t : table) :
  Knex.select {| sq_orderBy := None; sq_wheres := ws;
                 sq_offset := None; sq_limit := None |} t =
  match List.find (fun c => negb (Knex.hasColumn c t)) (map fst ws) with
  | Some c => Throw (Knex.no_such_column c)
  | None => Return (filter (fun r => forallb (Knex.where_holds r) ws) (t_rows t))
  end.
Proof. reflexivity. Qed.

(** The pushdown can only lose documents: whatever [find(P).toArray()]
    returns with [I] registered, it returns without. *)
Lemma pushdown_returns_fewer (I : list index) (w : world) (P : value)
  (with_I without : list value) :
  fst (toArray (find P) (with_indexes I w)) = Return with_I ->
  fst (toArray (find P) (with_indexes [] w)) = Return without ->
  forall d, In d with_I -> In d without.
Proof.
  rewrite !toArray_matched. cbn [fst].
  unfold matched, with_indexes. cbn [w_tableFailed w_indexes w_table].
  destruct (w_tableFailed w); [discriminate|].
  rewrite !build_query_with_id.
  destruct (nullish _); [discriminate|].
  cbn [sortParams find wheres flat_map]. rewrite app_nil_r.
  set (c := q_criteria (find P)).
  set (A := index_wheres c ["_id"]).
  rewrite !select_unordered.
  destruct (List.find _ (map fst (A ++ _))); [discriminate|].
  destruct (List.find _ (map fst A)); [discriminate|].
  cbn [outcome_map].
  intros E1 E2 d. injection E1 as <-. injection E2 as <-.
  rewrite !paginate_find, !in_map_iff.
  intros [r [Hd Hr]]. exists r. split; [exact Hd|].
  rewrite filter_In in Hr |- *. destruct Hr as [Hr Hs]. split; [|exact Hs].
  rewrite filter_In in Hr |- *. destruct Hr as [Hr Hw]. split; [exact Hr|].
  rewrite forallb_app in Hw. apply andb_true_iff in Hw. tauto.
Qed.

End Reading.

(* ===================================================================== *)
(** ** Deleting *)
(* ===================================================================== *)

Section Deleting.
Context `{Host}.

Lemma filter_split_length {A} (f : A -> bool) (l : list A) :
  length l = (length (filter f l) + length (filter (fun x => negb (f x)) l))%nat.
Proof.
  induction l as [|x l IH]; simpl; [reflexivity|].
  destruct (f x); simpl; lia.
Qed.

Lemma map_outcome_length {A B} (f : A -> outcome B) (l : list A) (l' : list B) :
  map_outcome f l = Return l' -> length l' = length l.
Proof.
  revert l'. induction l as [|a l IH]; simpl; intros l'.
  - intros E. injection E as <-. reflexivity.
  - destruct (f a); [|discriminate].
    destruct (map_outcome f l); [|discriminate].
    intros E. injection E as <-. simpl. f_equal. apply IH. reflexivity.
Qed.

(** Equality of a cell and a value is equality of two texts. *)
Lemma sql_eq_sym (a c : value) : Knex.sql_eq a c = Knex.sql_eq c a.
Proof.
  unfold Knex.sql_eq. rewrite (String.eqb_sym (sql_text a)).
  destruct (nullish a), (nullish c); reflexivity.
Qed.

Lemma sql_eq_same (a c v : value) :
  Knex.sql_eq a v = true -> Knex.sql_eq c v = true -> Knex.sql_eq a c = true.
Proof.
  unfold Knex.sql_eq. rewrite !andb_true_iff, !String.eqb_eq.
  intros [[Ha _] Eav] [[Hc _] Ecv]. repeat split; congruence.
Qed.

(** Under the primary key, at most one row carries a given [_id]. *)
Lemma one_row_per_id (id : value) (l : list obj) :
  Knex.distinct_on ["_id"] l = true ->
  (length (filter (fun r => Knex.sql_eq (Knex.cell r "_id") id) l) <= 1)%nat.
Proof.
  induction l as [|r l IH]; simpl; [lia|].
  rewrite andb_true_iff. intros [Hr Hl].
  destruct (Knex.sql_eq (Knex.cell r "_id") id) eqn:Er; [|apply IH, Hl].
  simpl. apply le_n_S.
  assert (E : filter (fun r' => Knex.sql_eq (Knex.cell r' "_id") id) l = []).
  { clear IH Hl. induction l as [|r' l IH]; simpl; [reflexivity|].
    simpl in Hr. apply andb_true_iff in Hr as [Hr' Hr].
    destruct (Knex.sql_eq (Knex.cell r' "_id") id) eqn:Er'; [|apply IH, Hr].
    exfalso. unfold Knex.collide in Hr'. cbn [forallb] in Hr'.
    rewrite andb_true_r, (sql_eq_same _ _ _ Er Er') in Hr'. discriminate. }
  rewrite E. simpl. lia.
Qed.

(** *** The primary key is kept by the engine *)

Lemma collide_sym (cols : list string) (r1 r2 : obj) :
  Knex.collide cols r1 r2 = Knex.collide cols r2 r1.
Proof.
  unfold Knex.collide. induction cols as [|c cols IH]; simpl; [reflexivity|].
  rewrite IH, sql_eq_sym. reflexivity.
Qed.

Lemma distinct_on_snoc (cols : list string) (l : list obj) (r : obj) :
  Knex.distinct_on cols l = true ->
  forallb (fun r' => negb (Knex.collide cols r r')) l = true ->
  Knex.distinct_on cols (l ++ [r]) = true.
Proof.
  induction l as [|x l IH]; simpl; [reflexivity|].
  rewrite !andb_true_iff. intros [Hx Hl] [Hrx Hr].
  split; [|apply IH; assumption].
  rewrite forallb_app, Hx. simpl. rewrite collide_sym, Hrx. reflexivity.
Qed.

Lemma distinct_on_filter (cols : list string) (keep : obj -> bool) (l : list obj) :
  Knex.distinct_on cols l = true -> Knex.distinct_on cols (filter keep l) = true.
Proof.
  induction l as [|x l IH]; simpl; [reflexivity|].
  rewrite andb_true_iff. intros [Hx Hl].
  destruct (keep x); simpl; [|apply IH, Hl].
  rewrite (IH Hl), andb_true_r.
  rewrite forallb_forall in Hx |- *. intros r Hr.
  apply Hx. apply filter_In in Hr. tauto.
Qed.

Lemma insert_keeps_key (row : obj) (t t' : table) :
  Knex.distinct_on ["_id"] (t_rows t) = true ->
  Knex.insert row t = (Return tt, t') ->
  Knex.distinct_on ["_id"] (t_rows t') = true.
Proof.
  intros Hpk. unfold Knex.insert.
  destruct (List.find _ row); [discriminate|].
  unfold Knex.unique_keys. cbn [forallb].
  destruct (forallb _ (t_rows t)) eqn:Eid; [|discriminate].
  destruct (forallb _ (map fst _)); [|discriminate].
  cbn [andb]. intros E. injection E as <-. cbn [t_rows].
  apply distinct_on_snoc; assumption.
Qed.

Lemma delete_whereIn_keeps_key (ids : list value) (t t' : table) (n : Z) :
  Knex.distinct_on ["_id"] (t_rows t) = true ->
  Knex.delete_whereIn ids t = (Return n, t') ->
  Knex.distinct_on ["_id"] (t_rows t') = true.
Proof.
  intros Hpk. unfold Knex.delete_whereIn.
  destruct (existsb is_undef ids); [discriminate|].
  intros E. injection E as _ <-. cbn [t_rows].
  apply distinct_on_filter, Hpk.
Qed.

Lemma touched_distinct (cols : list string) (f : obj -> bool * obj) (l : list obj) :
  (forall old, fst (f old) = false -> snd (f old) = old) ->
  Knex.distinct_on cols l = true ->
  Knex.touched_ok cols (map f l) = true ->
  Knex.distinct_on cols (map snd (map f l)) = true.
Proof.
  intros Hf. induction l as [|x l IH]; simpl; [reflexivity|].
  destruct (f x) as [m r] eqn:Ex. simpl.
  rewrite !andb_true_iff. intros [Hx Hl] [Hm Ht].
  split; [|apply IH; assumption].
  clear IH Hl Ht. induction l as [|y l IHl]; simpl in *; [reflexivity|].
  apply andb_true_iff in Hx as [Hxy Hx].
  apply andb_true_iff in Hm as [Hmy Hm].
  rewrite (IHl Hx Hm), andb_true_r.
  destruct (f y) as [m' r'] eqn:Ey. simpl in *.
  destruct m; simpl in Hmy; [exact Hmy|].
  destruct m'; simpl in Hmy; [exact Hmy|].
  pose proof (Hf x) as Hfx. rewrite Ex in Hfx. simpl in Hfx. rewrite (Hfx eq_refl).
  pose proof (Hf y) as Hfy. rewrite Ey in Hfy. simpl in Hfy. rewrite (Hfy eq_refl).
  exact Hxy.
Qed.

Lemma update_keeps_key (row : obj) (id : value) (t t' : table) (n : Z) :
  Knex.distinct_on ["_id"] (t_rows t) = true ->
  Knex.update row id t = (Return n, t') ->
  Knex.distinct_on ["_id"] (t_rows t') = true.
Proof.
  intros Hpk. unfold Knex.update.
  destruct (is_undef id); [discriminate|].
  destruct (List.find _ (Knex.bound_cells row)); [discriminate|].
  unfold Knex.unique_keys. cbn [forallb].
  destruct (Knex.touched_ok ["_id"] _) eqn:Et; [|discriminate].
  destruct (forallb _ (map fst _)); [|discriminate].
  cbn [andb]. intros E. injection E as _ <-. cbn [t_rows].
  apply touched_distinct; try assumption.
  intros old. destruct (Knex.where_holds old ("_id", id)); simpl; [discriminate | reflexivity].
Qed.

(** *** ... and by every method of the collection *)

Lemma keeps_ret {A} (a : A) : keeps_key (ret a).
Proof. intros w Hw. exact Hw. Qed.

Lemma keeps_throw {A} (e : error) : keeps_key (@throw A e).
Proof. intros w Hw. exact Hw. Qed.

Lemma keeps_lift {A} (o : outcome A) : keeps_key (lift o).
Proof. intros w Hw. exact Hw. Qed.

Lemma keeps_ready : keeps_key ready.
Proof. intros w Hw. unfold ready. destruct (w_tableFailed w); exact Hw. Qed.

Lemma keeps_bind {A B} (m : M A) (k : A -> M B) :
  keeps_key m -> (forall a, keeps_key (k a)) -> keeps_key (bind m k).
Proof.
  intros Hm Hk w Hw. unfold bind. specialize (Hm w Hw).
  destruct (m w) as [[a|e] w']; simpl in Hm; [apply Hk, Hm | exact Hm].
Qed.

Lemma keeps_rethrow {A} (f : error -> error) (m : M A) :
  keeps_key m -> keeps_key (rethrow f m).
Proof.
  intros Hm w Hw. unfold rethrow. specialize (Hm w Hw).
  destruct (m w) as [[a|e] w']; exact Hm.
Qed.

Lemma keeps_knex {A} (f : table -> outcome A * table) :
  (forall t, Knex.distinct_on ["_id"] (t_rows t) = true ->
             Knex.distinct_on ["_id"] (t_rows (snd (f t))) = true) ->
  keeps_key (knex f).
Proof.
  intros Hf w Hw. unfold knex. specialize (Hf (w_table w) Hw).
  destruct (f (w_table w)) as [o t]. exact Hf.
Qed.

Lemma keeps_read {A} (f : world -> A) : keeps_key (fun w => (Return (f w), w)).
Proof. intros w Hw. exact Hw. Qed.

Lemma insert_keeps (row : obj) (t : table) :
  Knex.distinct_on ["_id"] (t_rows t) = true ->
  Knex.distinct_on ["_id"] (t_rows (snd (Knex.insert row t))) = true.
Proof.
  intros Hpk. destruct (Knex.insert row t) as [[[]|e] t'] eqn:E.
  - exact (insert_keeps_key _ _ _ Hpk E).
  - unfold Knex.insert in E. destruct (List.find _ row).
    + injection E as _ <-. exact Hpk.
    + destruct (forallb _ _); [discriminate|]. injection E as _ <-. exact Hpk.
Qed.

Lemma update_keeps (row : obj) (id : value) (t : table) :
  Knex.distinct_on ["_id"] (t_rows t) = true ->
  Knex.distinct_on ["_id"] (t_rows (snd (Knex.update row id t))) = true.
Proof.
  intros Hpk. destruct (Knex.update row id t) as [[n|e] t'] eqn:E.
  - exact (update_keeps_key _ _ _ _ _ Hpk E).
  - unfold Knex.update in E. destruct (is_undef id); [injection E as _ <-; exact Hpk|].
    destruct (List.find _ _); [injection E as _ <-; exact Hpk|].
    destruct (forallb _ _); [discriminate|]. injection E as _ <-. exact Hpk.
Qed.

Lemma delete_where_keeps (id : value) (t : table) :
  Knex.distinct_on ["_id"] (t_rows t) = true ->
  Knex.distinct_on ["_id"] (t_rows (snd (Knex.delete_where id t))) = true.
Proof.
  intros Hpk. unfold Knex.delete_where. destruct (is_undef id); [exact Hpk|].
  apply distinct_on_filter, Hpk.
Qed.

Lemma delete_whereIn_keeps (ids : list value) (t : table) :
  Knex.distinct_on ["_id"] (t_rows t) = true ->
  Knex.distinct_on ["_id"] (t_rows (snd (Knex.delete_whereIn ids t))) = true.
Proof.
  intros Hpk. unfold Knex.delete_whereIn. destruct (existsb is_undef ids); [exact Hpk|].
  apply distinct_on_filter, Hpk.
Qed.

Lemma add_columns_rows (new : list string) (t : table) :
  t_rows (snd (Knex.add_columns new t)) = t_rows t.
Proof.
  revert t. induction new as [|c new IH]; intros t; simpl; [reflexivity|].
  destruct (Knex.hasColumn c t); [reflexivity|]. rewrite IH. reflexivity.
Qed.

Lemma alterTable_rows (new cols : list string) (unique : bool) (t : table) :
  t_rows (snd (Knex.alterTable new cols unique t)) = t_rows t.
Proof.
  unfold Knex.alterTable. pose proof (add_columns_rows new t) as E.
  destruct (Knex.add_columns new t) as [[[]|e] t']; simpl in E; [|exact E].
  rewrite <- E. unfold Knex.add_index.
  destruct cols; [reflexivity|].
  destruct (existsb _ _); [reflexivity|].
  destruct (unique && _); reflexivity.
Qed.

Lemma keeps_toArray (q : query) : keeps_key (toArray q).
Proof. intros w Hw. rewrite toArray_matched. exact Hw. Qed.

Lemma keeps_insert_doc (doc : value) : keeps_key (insert_doc doc).
Proof.
  intros w Hw. unfold insert_doc.
  destruct (prepareForInsert _ doc _) as [[row|e] drawn]; [|exact Hw].
  unfold knex. cbn [w_table].
  pose proof (insert_keeps row (w_table w) Hw) as Hi.
  destruct (Knex.insert row (w_table w)) as [o t]. exact Hi.
Qed.

Lemma keeps_insertOne (doc : value) : keeps_key (insertOne doc).
Proof.
  unfold insertOne. apply keeps_bind; [apply keeps_ready|]. intros _.
  apply keeps_rethrow, keeps_bind; [apply keeps_insert_doc|]. intros _. apply keeps_ret.
Qed.

Lemma keeps_insertMany (docs : list value) : keeps_key (insertMany docs).
Proof.
  unfold insertMany. apply keeps_bind; [apply keeps_ready|]. intros _.
  apply keeps_rethrow, keeps_bind; [|intros _; apply keeps_ret].
  induction docs as [|doc docs IH]; simpl; [apply keeps_ret|].
  apply keeps_bind; [apply keeps_insert_doc | intros _; exact IH].
Qed.

Lemma keeps_update_doc (doc : value) : keeps_key (update_doc doc).
Proof.
  unfold update_doc. apply keeps_bind; [apply keeps_read|]. intros indexes.
  apply keeps_bind; [apply keeps_lift|]. intros row.
  apply keeps_knex. intros t. apply update_keeps.
Qed.

Lemma keeps_updateBody (doc operations : value) : keeps_key (updateBody doc operations).
Proof.
  unfold updateBody. apply keeps_bind.
  - intros w Hw. unfold operators.
    destruct (nullish operations); [exact Hw|].
    destruct (truthy _); exact Hw.
  - intros ops. apply keeps_bind; [apply keeps_lift|]. intros doc'.
    apply keeps_bind; [apply keeps_update_doc | intros _; apply keeps_ret].
Qed.

Lemma keeps_findOne (criteria : value) : keeps_key (findOne criteria).
Proof.
  unfold findOne. apply keeps_bind; [apply keeps_toArray | intros l; apply keeps_ret].
Qed.

(** X28: the primary key holds of a new collection and every method of
    the collection keeps it, whether it returns or throws. *)
Lemma primary_key_invariant :
  primary_key new_collection /\
  (forall fields options, keeps_key (createIndex fields options)) /\
  (forall q, keeps_key (toArray q)) /\
  (forall doc, keeps_key (insertOne doc)) /\
  (forall docs, keeps_key (insertMany docs)) /\
  (forall doc, keeps_key (replaceOne doc)) /\
  (forall criteria operations options, keeps_key (updateOne criteria operations options)) /\
  (forall criteria operations options, keeps_key (updateMany criteria operations options)) /\
  (forall criteria, keeps_key (deleteOne criteria)) /\
  (forall criteria, keeps_key (deleteMany criteria)).
Proof.
  split; [reflexivity|].
  split.
  { intros fields options. unfold createIndex.
    apply keeps_bind; [apply keeps_ready|]. intros _.
    apply keeps_bind; [destruct (nullish fields); [apply keeps_throw | apply keeps_ret]|].
    intros _ w Hw. cbv zeta.
    set (opts := if is_undef options then VObj [] else options).
    set (w1 := mkWorld _ _ _ _ _).
    assert (H1 : primary_key w1) by exact Hw.
    set (attempt := match opts with VNull => throw type_error | _ => knex _ end).
    assert (Ha : keeps_key attempt).
    { subst attempt. destruct opts; try apply keeps_throw;
        apply keeps_knex; intros t Ht; rewrite alterTable_rows; exact Ht. }
    specialize (Ha w1 H1).
    destruct (attempt w1) as [[[]|e] w2]; simpl in Ha; [exact Ha|].
    destruct (includes _ _); exact Ha. }
  split; [exact keeps_toArray|].
  split; [exact keeps_insertOne|].
  split; [exact keeps_insertMany|].
  split.
  { intros doc. unfold replaceOne. apply keeps_bind; [apply keeps_ready|]. intros _.
    apply keeps_bind; [apply keeps_update_doc | intros _; apply keeps_ret]. }
  split.
  { intros criteria operations options. unfold updateOne.
    apply keeps_bind; [apply keeps_ready|]. intros _.
    apply keeps_bind; [apply keeps_findOne|]. intros doc.
    destruct (negb (truthy doc)); [|apply keeps_updateBody].
    apply keeps_bind; [apply keeps_lift|]. intros [|]; [|apply keeps_ret].
    apply keeps_bind; [apply keeps_lift | intros payload; apply keeps_insertOne]. }
  split.
  { intros criteria operations options. unfold updateMany.
    apply keeps_bind; [apply keeps_ready|]. intros _.
    apply keeps_bind; [apply keeps_toArray|]. intros docs.
    apply keeps_bind; [apply keeps_lift|]. intros upsert.
    destruct (upsert && _).
    - apply keeps_bind; [apply keeps_lift | intros payload; apply keeps_insertOne].
    - apply keeps_bind; [|intros _; apply keeps_ret].
      induction docs as [|doc docs IH]; simpl; [apply keeps_ret|].
      apply keeps_bind; [apply keeps_updateBody | intros _; exact IH]. }
  split.
  { intros criteria. unfold deleteOne.
    apply keeps_bind; [apply keeps_toArray|]. intros l.
    destruct (negb (truthy _)); [apply keeps_ret|].
    apply keeps_bind; [|intros n; apply keeps_ret].
    apply keeps_knex. intros t. apply delete_where_keeps. }
  { intros criteria. unfold deleteMany.
    apply keeps_bind; [apply keeps_toArray|]. intros matching.
    apply keeps_bind; [apply keeps_lift|]. intros [|id ids]; [apply keeps_ret|].
    apply keeps_bind; [|intros n; apply keeps_ret].
    apply keeps_knex. intros t. apply delete_whereIn_keeps. }
Qed.

Lemma limit_one_length (criteria : value) (w w' : world) (matching : list value) :
  toArray (limit 1 (find criteria)) w = (Return matching, w') ->
  (length matching <= 1)%nat /\ w' = w.
Proof.
  rewrite toArray_matched.
  destruct (matched _ w) as [docs|e]; simpl; [|discriminate].
  intros E. injection E as <- <-. split; [|reflexivity].
  unfold paginate; simpl. rewrite slice_to_firstn by lia.
  rewrite length_firstn. lia.
Qed.

(** C9: [deleteMany] looks its matches up with [limit(1)], so whatever the
    criteria and however many stored documents match, it deletes at most
    one row and reports an [nDeleted] of at most 1; [removeMany] is the
    same function.  The table is one with a primary key on [_id]. *)
Theorem deleteMany_at_most_one (w : world) (criteria : value) :
  primary_key w ->
  match deleteMany criteria w with
  | (Return r, w') =>
      exists n, r = result "nDeleted" n /\ (0 <= n <= 1)%Z /\
                Z.of_nat (length (rows w)) = (Z.of_nat (length (rows w')) + n)%Z /\
                forall row, In row (rows w') -> In row (rows w)
  | (Throw e, w') => w' = w
  end
  /\ removeMany criteria w = deleteMany criteria w.
Proof.
  intros Hpk. split; [|reflexivity].
  unfold deleteMany, bind.
  destruct (toArray (limit 1 (find criteria)) w) as [[matching|e] w'] eqn:Eq.
  2:{ rewrite toArray_matched in Eq. injection Eq as _ <-. reflexivity. }
  apply limit_one_length in Eq as [Hlen ->].
  unfold lift.
  destruct (map_outcome id_of matching) as [ids|e] eqn:Eids; [|reflexivity].
  apply map_outcome_length in Eids.
  destruct ids as [|id ids].
  - unfold ret. exists 0%Z. repeat split; try lia. intros row Hrow; exact Hrow.
  - destruct ids as [|id' ids]; [|simpl in Eids; lia].
    unfold knex, Knex.delete_whereIn. simpl existsb.
    destruct (is_undef id).
    + simpl. rewrite set_table_same. reflexivity.
    + simpl. unfold ret.
      set (gone := fun r => Knex.sql_eq (Knex.cell r "_id") id || false).
      exists (Z.of_nat (length (filter gone (t_rows (w_table w))))).
      assert (Hgone : (length (filter gone (t_rows (w_table w))) <= 1)%nat).
      { subst gone.
        rewrite (filter_ext _ (fun r => Knex.sql_eq (Knex.cell r "_id") id))
          by (intros r; apply orb_false_r).
        apply one_row_per_id, Hpk. }
      repeat split; try lia.
      * unfold rows; simpl.
        rewrite (filter_split_length gone (t_rows (w_table w))) at 1.
        change (fun r : obj => negb (Knex.sql_eq (Knex.cell r "_id") id || false))
          with (fun x : obj => negb (gone x)).
        lia.
      * unfold rows; simpl. intros row Hrow.
        apply filter_In in Hrow. tauto.
Qed.

End Deleting.

(* ===================================================================== *)
(** ** Update operators *)
(* ===================================================================== *)

Section Operators.
Context `{Host}.

Lemma assign_absent (k : string) (v : value) (o : obj) :
  lookup k o = None -> assign k v o = o ++ [(k, v)].
Proof.
  induction o as [|[k' x] o IH]; simpl; [reflexivity|].
  destruct (String.eqb k' k); [discriminate|].
  intros E. rewrite (IH E). reflexivity.
Qed.

Lemma lookup_assign_same (k : string) (v : value) (o : obj) :
  lookup k (assign k v o) = Some v.
Proof.
  induction o as [|[k' x] o IH]; simpl.
  - rewrite String.eqb_refl. reflexivity.
  - destruct (String.eqb k' k) eqn:E; simpl; rewrite E; [reflexivity | exact IH].
Qed.

Lemma lookup_assign_other (k k' : string) (v : value) (o : obj) :
  k <> k' -> lookup k (assign k' v o) = lookup k o.
Proof.
  intros Hk. induction o as [|[k0 x] o IH]; simpl.
  - destruct (String.eqb_spec k' k); [congruence | reflexivity].
  - destruct (String.eqb_spec k0 k') as [->|Hne]; simpl.
    + destruct (String.eqb_spec k' k); [congruence | reflexivity].
    + destruct (String.eqb k0 k); [reflexivity | exact IH].
Qed.

Lemma member_own (o : obj) (p : string) (x : value) :
  lookup p o = Some x -> member (VObj o) p = Some x.
Proof. intros E. unfold member. simpl. rewrite E. reflexivity. Qed.

Lemma member_absent (o : obj) (p : string) :
  lookup p o = None ->
  member (VObj o) p = if inherited p then None else Some VUndef.
Proof. intros E. unfold member. simpl. rewrite E. reflexivity. Qed.

Lemma pull_one (p : string) (v doc : value) :
  pull p v doc =
  if nullish doc then pull p v doc else pull_step doc (p, v).
Proof.
  destruct (nullish doc); [reflexivity|].
  unfold pull, each, apply_operator. simpl.
  unfold op_pull, entries_of, each. simpl.
  destruct (pull_step doc (p, v)); reflexivity.
Qed.

Lemma pull_present (o : obj) (p : string) (v : value) (l : list value) :
  lookup p o = Some (VArr l) ->
  pull p v (VObj o) =
  Return (VObj (assign p (VArr (filter (fun x => negb (strict_eq x v)) l)) o)).
Proof.
  intros E. rewrite pull_one. cbn [nullish].
  unfold pull_step. cbn [fst snd]. rewrite (member_own _ _ _ E). reflexivity.
Qed.

Lemma pull_absent (o : obj) (p : string) (v : value) :
  lookup p o = None -> inherited p = false ->
  pull p v (VObj o) = Return (VObj (o ++ [(p, VArr [])])).
Proof.
  intros E Hp. rewrite pull_one. cbn [nullish].
  unfold pull_step. cbn [fst snd]. rewrite (member_absent _ _ E), Hp. simpl.
  rewrite (assign_absent _ _ _ E). reflexivity.
Qed.

Lemma pull_inherited (o : obj) (p : string) (v : value) :
  lookup p o = None -> inherited p = true ->
  pull p v (VObj o) = Throw (js_error "(doc[prop] || []).filter is not a function").
Proof.
  intros E Hp. rewrite pull_one. cbn [nullish].
  unfold pull_step. cbn [fst snd]. rewrite (member_absent _ _ E), Hp. reflexivity.
Qed.

(** C5 (as amended): on a document whose property [p] holds a sequence,
    [$pull] of [v] keeps, in order, exactly the elements that are not
    strictly equal ([===]) to [v] and leaves the other properties alone.
    On a document without [p] it is not a no-op: it adds [p] with the
    empty sequence; and when [p] is one of the names every object inherits
    from [Object.prototype] ([constructor], [toString], ...), what
    [doc[p]] finds there has no [filter], and the operation throws. *)
Theorem pull_removes_strict_equal (o : obj) (p : string) (v : value) :
  (forall l, lookup p o = Some (VArr l) ->
     exists l',
       pull p v (VObj o) = Return (VObj (assign p (VArr l') o)) /\
       l' = filter (fun x => negb (strict_eq x v)) l /\
       (forall x, In x l' <-> In x l /\ strict_eq x v = false) /\
       (forall k, k <> p -> get (VObj (assign p (VArr l') o)) k = get (VObj o) k))
  /\
  (lookup p o = None -> inherited p = false ->
     pull p v (VObj o) = Return (VObj (o ++ [(p, VArr [])])) /\
     get (VObj (o ++ [(p, VArr [])])) p = VArr [])
  /\
  (lookup p o = None -> inherited p = true ->
     exists e, pull p v (VObj o) = Throw e).
Proof.
  split; [|split].
  - intros l E. exists (filter (fun x => negb (strict_eq x v)) l).
    split; [apply pull_present, E|]. split; [reflexivity|]. split.
    + intros x. rewrite filter_In, negb_true_iff. reflexivity.
    + intros k Hk. simpl. rewrite lookup_assign_other by exact Hk. reflexivity.
  - intros E Hp. split; [apply pull_absent; assumption|].
    rewrite <- (assign_absent p (VArr []) o E). simpl.
    rewrite lookup_assign_same. reflexivity.
  - intros E Hp. eexists. apply pull_inherited; assumption.
Qed.

(** [$addToSet] never looks at the value it is given. *)
Lemma addToSet_ignores_value (p : string) (v v' : value) (doc : value) :
  addToSet p v doc = addToSet p v' doc.
Proof. reflexivity. Qed.

(** So a value that is not in the sequence yet is not there afterwards
    either. *)
Lemma addToSet_adds_nothing (o : obj) (p : string) (v : value) (l : list value) :
  lookup p o = Some (VArr l) ->
  addToSet p v (VObj o) = Return (VObj (assign p (VArr (set_of l)) o)).
Proof.
  intros E. unfold addToSet, each, apply_operator. simpl.
  unfold op_addToSet, entries_of, each, addToSet_step. cbn [nullish entries fst snd].
  rewrite (member_own _ _ _ E). reflexivity.
Qed.

(** *** What the update methods return *)

(** When [updateMany] returns, it returns [undefined], except on the
    upsert path, where it hands on what [insertOne] returned. *)
Lemma updateMany_result (criteria operations options : value) (w : world) (v : value) :
  fst (updateMany criteria operations options w) = Return v ->
  v = VUndef \/ v = result "nModified" 1.
Proof.
  unfold updateMany, bind, ready, lift, ret.
  destruct (w_tableFailed w); [discriminate|].
  destruct (toArray (find criteria) w) as [[docs|e] w1]; [|discriminate].
  destruct (upsert_of options) as [upsert|e]; [|discriminate].
  destruct (upsert && _).
  - destruct (set_of_operations operations) as [payload|e]; [|discriminate].
    unfold insertOne, bind, ready, rethrow, ret.
    destruct (w_tableFailed w1); [discriminate|].
    destruct (insert_doc payload w1) as [[u|e] w2]; [|discriminate].
    cbn [fst]. intros E. injection E as <-. right. reflexivity.
  - destruct (update_each docs operations w1) as [[u|e] w2]; [|discriminate].
    cbn [fst]. intros E. injection E as <-. left. reflexivity.
Qed.

(** [updateOne], its sibling, returns a descriptor whenever it returns. *)
Lemma updateOne_result (criteria operations options : value) (w : world) (v : value) :
  fst (updateOne criteria operations options w) = Return v ->
  v = result "nModified" 0 \/ v = result "nModified" 1.
Proof.
  unfold updateOne, bind, ready, lift, ret.
  destruct (w_tableFailed w); [discriminate|].
  destruct (findOne criteria w) as [[doc|e] w1]; [|discriminate].
  destruct (negb (truthy doc)).
  - destruct (upsert_of options) as [[|]|e]; [| |discriminate].
    + destruct (set_of_operations operations) as [payload|e]; [|discriminate].
      unfold insertOne, bind, ready, rethrow, ret.
      destruct (w_tableFailed w1); [discriminate|].
      destruct (insert_doc payload w1) as [[u|e] w2]; [|discriminate].
      cbn [fst]. intros E. injection E as <-. right. reflexivity.
    + cbn [fst]. intros E. injection E as <-. left. reflexivity.
  - unfold updateBody, bind, lift, ret.
    destruct (operators operations w1) as [[ops|e] w2]; [|discriminate].
    destruct (each apply_operator ops doc) as [doc'|e]; [|discriminate].
    destruct (update_doc doc' w2) as [[n|e] w3]; [|discriminate].
    cbn [fst]. intros E. injection E as <-. right. reflexivity.
Qed.

End Operators.

(* ===================================================================== *)
(** ** Inserting *)
(* ===================================================================== *)

Section Inserting.
Context `{Host}.

Lemma insertOne_unfold (doc : value) (w : world) :
  insertOne doc w =
  match w_tableFailed w with
  | Some e => (Throw e, w)
  | None =>
      match insert_doc doc w with
      | (Return _, w') => (Return (result "nModified" 1), w')
      | (Throw e, w') => (Throw (compatibleError e), w')
      end
  end.
Proof.
  unfold insertOne, bind, ready, rethrow, ret.
  destruct (w_tableFailed w); [reflexivity|].
  destruct (insert_doc doc w) as [[u|e] w']; reflexivity.
Qed.

Lemma find_none_forallb {A} (p : A -> bool) (l : list A) :
  forallb p l = true -> List.find (fun x => negb (p x)) l = None.
Proof.
  induction l as [|x l IH]; simpl; [reflexivity|].
  rewrite andb_true_iff. intros [Hx Hl]. rewrite Hx. simpl. apply IH, Hl.
Qed.

Lemma no_collision_false (t : table) (r : obj) :
  existsb (fun cols => existsb (Knex.collide cols r) (t_rows t)) (Knex.unique_keys t) = true ->
  forallb (fun cols => forallb (fun r' => negb (Knex.collide cols r r')) (t_rows t))
    (Knex.unique_keys t) = false.
Proof.
  generalize (Knex.unique_keys t) as ks. induction ks as [|cols ks IH]; simpl.
  - discriminate.
  - intros E. apply orb_true_iff in E as [E|E].
    + assert (F : forallb (fun r' => negb (Knex.collide cols r r')) (t_rows t) = false).
      { clear IH. induction (t_rows t) as [|r' l IHl]; simpl in *; [discriminate|].
        apply orb_true_iff in E as [E|E].
        - rewrite E. reflexivity.
        - rewrite (IHl E). apply andb_false_r. }
      rewrite F. reflexivity.
    + rewrite (IH E). apply andb_false_r.
Qed.

Lemma no_collision_true (t : table) (r : obj) :
  existsb (fun cols => existsb (Knex.collide cols r) (t_rows t)) (Knex.unique_keys t) = false ->
  forallb (fun cols => forallb (fun r' => negb (Knex.collide cols r r')) (t_rows t))
    (Knex.unique_keys t) = true.
Proof.
  generalize (Knex.unique_keys t) as ks. induction ks as [|cols ks IH]; simpl.
  - reflexivity.
  - intros E. apply orb_false_iff in E as [E1 E2].
    rewrite (IH E2), andb_true_r. clear IH E2.
    induction (t_rows t) as [|r' l IHl]; simpl in *; [reflexivity|].
    apply orb_false_iff in E1 as [E E1]. rewrite E, (IHl E1). reflexivity.
Qed.

(** [insertOne] returns its descriptor when the table is there, every key
    of the row is a column, and the row collides with no stored row. *)
Lemma insertOne_returns (w : world) (doc : value) (row : obj) (drawn : bool) :
  w_tableFailed w = None ->
  prepareForInsert (w_indexes w) doc (cuid (w_cuids w)) = (Return row, drawn) ->
  forallb (fun kv => Knex.hasColumn (fst kv) (w_table w)) row = true ->
  existsb (fun cols => existsb (Knex.collide cols (Knex.bound_cells row)) (rows w))
    (Knex.unique_keys (w_table w)) = false ->
  fst (insertOne doc w) = Return (result "nModified" 1) /\
  rows (snd (insertOne doc w)) = rows w ++ [Knex.bound_cells row].
Proof.
  intros Hready Hrow Hcols Hfree.
  rewrite insertOne_unfold, Hready.
  unfold insert_doc. rewrite Hrow. unfold knex, Knex.insert. cbn [w_table].
  rewrite (find_none_forallb _ _ Hcols).
  rewrite (no_collision_true _ _ Hfree).
  split; reflexivity.
Qed.

(** C8 (as amended): when the engine reports a uniqueness failure with the
    code [SQLITE_CONSTRAINT], as SQLite does, [insertOne] of a document
    whose row collides with a stored row on the primary key or on a unique
    index (the columns of the key hold the same text in both, and no NULL)
    throws the error [Not Unique] with code 11000 and leaves the table as
    it was, so the stored document stays the only one with that value; an
    error with any other code comes out of [compatibleError] unchanged. *)
Theorem unique_violation_translated (w : world) (doc : value) (row : obj) (drawn : bool) :
  code unique_error = VStr "SQLITE_CONSTRAINT" ->
  w_tableFailed w = None ->
  prepareForInsert (w_indexes w) doc (cuid (w_cuids w)) = (Return row, drawn) ->
  forallb (fun kv => Knex.hasColumn (fst kv) (w_table w)) row = true ->
  existsb (fun cols => existsb (Knex.collide cols (Knex.bound_cells row)) (rows w))
    (Knex.unique_keys (w_table w)) = true ->
  fst (insertOne doc w) = Throw {| code := VNum 11000; message := "Not Unique" |}
  /\ w_table (snd (insertOne doc w)) = w_table w
  /\ forall e, strict_eq (code e) (VStr "SQLITE_CONSTRAINT") = false ->
               compatibleError e = e.
Proof.
  intros Hcode Hready Hrow Hcols Hclash.
  assert (Hins : exists w', insert_doc doc w = (Throw unique_error, w')
                            /\ w_table w' = w_table w).
  { unfold insert_doc. rewrite Hrow. unfold knex, Knex.insert.
    cbn [w_table].
    rewrite (find_none_forallb _ _ Hcols).
    rewrite (no_collision_false _ _ Hclash).
    eexists. split; [reflexivity|]. reflexivity. }
  destruct Hins as [w' [Hins Ht]].
  rewrite insertOne_unfold, Hready, Hins. cbn [fst snd].
  repeat split.
  - unfold compatibleError. rewrite Hcode. reflexivity.
  - exact Ht.
  - intros e He. unfold compatibleError. rewrite He. reflexivity.
Qed.

(** *** What a row holds *)

Lemma keys_assign (k : string) (v : value) (o : obj) :
  NoDup (map fst o) -> NoDup (map fst (assign k v o)).
Proof.
  intros Hnd. induction o as [|[k' x] o IH]; simpl.
  - constructor; [intros [] | constructor].
  - inversion Hnd as [|? ? Hk' Ho]; subst.
    destruct (String.eqb_spec k' k) as [->|Hne]; simpl; [exact Hnd|].
    constructor; [|apply IH, Ho].
    intros Hin. apply Hk'. clear IH Hnd Ho Hk'.
    induction o as [|[k0 y] o IHo]; simpl in *.
    + destruct Hin as [E|[]]. congruence.
    + destruct (String.eqb_spec k0 k) as [->|Hne0]; simpl in Hin; [exact Hin|].
      destruct Hin as [E|Hin]; [left; exact E | right; apply IHo, Hin].
Qed.

Lemma stored_string (s : string) : Knex.stored (VStr s) = VStr s.
Proof. unfold Knex.stored. simpl. rewrite sql_text_string. reflexivity. Qed.

Lemma stored_null (v : value) : nullish v = true -> Knex.stored v = VNull.
Proof. intros E. unfold Knex.stored. rewrite E. reflexivity. Qed.



Lemma bound_cells_names (row : obj) (c : string) :
  In c (map fst (Knex.bound_cells row)) -> In c (map fst row).
Proof.
  unfold Knex.bound_cells. rewrite map_map. cbn [fst].
  intros Hin. apply in_map_iff in Hin as [[k x] [E Hin]].
  apply filter_In in Hin as [Hin _]. simpl in E. subst k.
  apply (in_map fst) in Hin. exact Hin.
Qed.


Lemma promoted_keys (indexes : list index) (doc : value) (row : obj) :
  NoDup (map fst row) -> NoDup (map fst (promoted indexes doc row)).
Proof.
  unfold promoted. revert row.
  induction indexes as [|ix indexes IH]; simpl; intros row Hnd; [exact Hnd|].
  apply IH. generalize (keys (fields ix)) as fs. intros fs. revert row Hnd.
  induction fs as [|f fs IHf]; simpl; intros row Hnd; [exact Hnd|].
  apply IHf, keys_assign, Hnd.
Qed.

Lemma promoted_blob (indexes : list index) (doc : value) (row : obj) :
  no_blob_field indexes = true ->
  lookup "_ext_json" (promoted indexes doc row) = lookup "_ext_json" row.
Proof.
  unfold promoted, no_blob_field. revert row.
  induction indexes as [|ix indexes IH]; simpl; intros row Hix; [reflexivity|].
  apply andb_true_iff in Hix as [Hfs Hix].
  rewrite (IH _ Hix). clear IH Hix.
  revert row Hfs. generalize (keys (fields ix)) as fs.
  induction fs as [|f fs IHf]; simpl; intros row Hfs; [reflexivity|].
  apply andb_true_iff in Hfs as [Hf Hfs].
  rewrite (IHf _ Hfs). apply lookup_assign_other.
  intros E. rewrite <- E, String.eqb_refl in Hf. discriminate.
Qed.

Lemma In_firstn {A} (n : nat) (l : list A) (x : A) : In x (firstn n l) -> In x l.
Proof.
  intros Hx. rewrite <- (firstn_skipn n l). apply in_or_app. left. exact Hx.
Qed.

Lemma In_skipn {A} (n : nat) (l : list A) (x : A) : In x (skipn n l) -> In x l.
Proof.
  intros Hx. rewrite <- (firstn_skipn n l). apply in_or_app. right. exact Hx.
Qed.

Lemma select_rows (sq : sql_query) (t : table) (results : list obj) :
  Knex.select sq t = Return results ->
  forall r, In r results -> In r (t_rows t).
Proof.
  unfold Knex.select. destruct (List.find _ _); [discriminate|].
  intros E r Hr. injection E as <-.
  assert (Hsorted : forall r,
             In r (match sq_orderBy sq with
                   | Some ob => sql_order ob
                                  (filter (fun r => forallb (Knex.where_holds r) (sq_wheres sq))
                                     (t_rows t))
                   | None => filter (fun r => forallb (Knex.where_holds r) (sq_wheres sq))
                               (t_rows t)
                   end) -> In r (t_rows t)).
  { intros r0 Hr0. destruct (sq_orderBy sq) as [ob|].
    - apply (Permutation_in _ (sql_order_perm ob _)) in Hr0.
      apply filter_In in Hr0. tauto.
    - apply filter_In in Hr0. tauto. }
  apply Hsorted.
  destruct (sq_limit sq); destruct (sq_offset sq);
    unfold slice_to, slice_from in Hr;
    repeat (first [apply In_firstn in Hr | apply In_skipn in Hr]); exact Hr.
Qed.

(** Whatever [toArray] returns is the decoded blob of a stored row that
    the matcher accepts: no other column of the row takes part. *)
Lemma toArray_decodes_rows (q : query) (w : world) (docs : list value) :
  fst (toArray q w) = Return docs ->
  forall d, In d docs ->
  exists row, In row (rows w) /\ d = decode row /\ sift (q_criteria q) d = true.
Proof.
  rewrite toArray_matched. cbn [fst]. unfold matched.
  destruct (w_tableFailed w); [discriminate|].
  destruct (build_query (w_indexes w) q) as [sq|]; [|discriminate].
  destruct (Knex.select sq (w_table w)) as [results|] eqn:Esel; [|discriminate].
  cbn [outcome_map]. intros E d Hd. injection E as <-.
  assert (Hin : In d (map decode
                        (filter (fun row => sift (q_criteria q) (decode row)) results))).
  { unfold paginate in Hd.
    destruct (given (limitParam q)); destruct (given (skipParam q));
      unfold slice_to, slice_from in Hd;
      repeat (first [apply In_firstn in Hd | apply In_skipn in Hd]); exact Hd. }
  apply in_map_iff in Hin as [row [Hrow Hin]].
  apply filter_In in Hin as [Hin Hs].
  exists row. split; [apply (select_rows _ _ _ Esel), Hin|].
  split; [symmetry; exact Hrow | rewrite <- Hrow; exact Hs].
Qed.


End Inserting.

(* ===================================================================== *)
(** ** The properties on concrete collections *)
(* ===================================================================== *)

Section Concrete.
Import Scenario ReferenceHost.

(** C1 fails on the code: [createIndex] adds the column of an indexed
    field and fills it for no stored row, so a document inserted before the
    index was created keeps NULL there.  [find({fur: 'black'})] returns the
    document before [createIndex({fur: 1})] and nothing after it, although
    the stored document is the same: the pushed-down [fur = 'black'] has
    dropped its row.  With the index descriptor taken away again, the same
    table gives the document back. *)
Theorem pushdown_loses_early_rows :
  let before := after (@insertOne sqlite pypy) new_collection in
  let indexed := after (@createIndex sqlite (VObj [("fur", VNum 1)]) VUndef) before in
  fst (@toArray sqlite (find black) before) = Return [pypy] /\
  w_indexes indexed = [id_index; fur_index] /\
  map (@decode sqlite) (rows indexed) = [pypy] /\
  map (fun row => Knex.cell row "fur") (rows indexed) = [VNull] /\
  fst (@toArray sqlite (find black) indexed) = Return [] /\
  fst (@toArray sqlite (find black) (with_indexes [] indexed)) = Return [pypy].
Proof. repeat split; vm_compute; reflexivity. Qed.

(** C2 fails on the code: the row's [a__b] column holds ["fresh"], the blob
    holds ["stale"] at [a.b], and [findOne] returns the blob as it is. *)
Theorem find_ignores_promoted_columns :
  Knex.cell (nth 0 (rows promoted_ahead) []) "a__b" = VStr "fresh" /\
  fst (@findOne sqlite (VObj [("_id", VStr "1")]) promoted_ahead)
  = Return (VObj [("_id", VStr "1"); ("a", VObj [("b", VStr "stale")])]).
Proof. split; vm_compute; reflexivity. Qed.

(** C3 fails on the code: with [metadata.locked] set, [updateOne] with a
    [$set] on [legs], a property no index or operator has touched before,
    returns [nModified: 1] and the stored document has changed. *)
Theorem locked_update_writes :
  let update := @updateOne sqlite (str_obj [("name", "pypy")])
                  (VObj [("$set", VObj [("legs", VNum 4)])]) VUndef in
  existsb (String.eqb "legs") (t_columns (w_table locked_collection)) = false /\
  fst (update locked_collection) = Return (result "nModified" 1) /\
  fst (@findOne sqlite (str_obj [("name", "pypy")]) (after update locked_collection))
  = Return (VObj [("_id", VStr "1"); ("name", VStr "pypy"); ("fur", VStr "black");
                  ("legs", VNum 4)]).
Proof. repeat split; vm_compute; reflexivity. Qed.

(** C4 fails on the code: [$addToSet] of ["b"] on [tags: ["a"]] stores
    [tags: ["a"]]; the value is never added. *)
Theorem addToSet_does_not_add :
  let update := @updateOne sqlite (str_obj [("_id", "1")])
                  (VObj [("$addToSet", VObj [("tags", VStr "b")])]) VUndef in
  fst (update tagged_collection) = Return (result "nModified" 1) /\
  fst (@findOne sqlite (str_obj [("_id", "1")]) (after update tagged_collection))
  = Return (VObj [("_id", VStr "1"); ("tags", VArr [VStr "a"])]).
Proof. repeat split; vm_compute; reflexivity. Qed.

(** C5, as stated, fails: [$pull] on a document without [tags] is not a
    no-op, the document comes out with [tags: []]. *)
Lemma pull_absent_not_noop :
  @pull sqlite "tags" (VStr "a") (str_obj [("_id", "1")])
  = Return (VObj [("_id", VStr "1"); ("tags", VArr [])]) /\
  @pull sqlite "tags" (VStr "a") (str_obj [("_id", "1")])
  <> Return (str_obj [("_id", "1")]).
Proof. split; [vm_compute; reflexivity | vm_compute; discriminate]. Qed.

Lemma pull_removes_strict_equal_witness :
  lookup "tags" [("_id", VStr "1"); ("tags", VArr [VStr "a"; VStr "b"; VStr "a"])]
  = Some (VArr [VStr "a"; VStr "b"; VStr "a"]) /\
  @pull sqlite "tags" (VStr "a")
    (VObj [("_id", VStr "1"); ("tags", VArr [VStr "a"; VStr "b"; VStr "a"])])
  = Return (VObj [("_id", VStr "1"); ("tags", VArr [VStr "b"])]) /\
  lookup "tags" [("_id", VStr "1")] = None /\
  inherited "tags" = false /\
  @pull sqlite "tags" (VStr "a") (VObj [("_id", VStr "1")])
  = Return (VObj [("_id", VStr "1"); ("tags", VArr [])]) /\
  lookup "constructor" [("_id", VStr "1")] = None /\
  inherited "constructor" = true /\
  exists e, @pull sqlite "constructor" (VStr "a") (VObj [("_id", VStr "1")]) = Throw e.
Proof.
  pose (o := [("_id", VStr "1"); ("tags", VArr [VStr "a"; VStr "b"; VStr "a"])]).
  destruct (@pull_removes_strict_equal sqlite o "tags" (VStr "a")) as [Hpresent _].
  destruct (Hpresent _ eq_refl) as [l' [E [El' _]]].
  destruct (@pull_removes_strict_equal sqlite [("_id", VStr "1")] "tags" (VStr "a"))
    as [_ [Habsent _]].
  destruct (Habsent eq_refl eq_refl) as [E' _].
  destruct (@pull_removes_strict_equal sqlite [("_id", VStr "1")] "constructor" (VStr "a"))
    as [_ [_ Hinherited]].
  split; [reflexivity|]. split; [unfold o in E; rewrite E, El'; reflexivity|].
  split; [reflexivity|]. split; [reflexivity|]. split; [exact E'|].
  split; [reflexivity|]. split; [reflexivity|].
  exact (Hinherited eq_refl eq_refl).
Defined.

(** C6, as stated, fails at [limit(0)]: nothing is truncated. *)
Lemma limit_zero_is_no_limit :
  fst (@toArray sqlite (limit 0 (skip 0 (find (VObj [])))) three_cats)
  = Return [pypy; spike; spyspy] /\
  outcome_map (fun docs => firstn 0 (skipn 0 docs))
    (fst (@toArray sqlite (find (VObj [])) three_cats))
  = Return [] /\
  fst (@toArray sqlite (limit 0 (skip 0 (find (VObj [])))) three_cats)
  <> outcome_map (fun docs => firstn 0 (skipn 0 docs))
       (fst (@toArray sqlite (find (VObj [])) three_cats)).
Proof.
  repeat split; try (vm_compute; reflexivity).
  vm_compute. discriminate.
Qed.

Lemma skip_limit_after_filter_witness :
  (0 <= 1)%Z /\ (0 <= 1)%Z /\
  @toArray sqlite (limit 1 (skip 1 (find black))) three_cats
  = (Return [spyspy], three_cats).
Proof.
  assert (Hs : (0 <= 1)%Z) by lia.
  destruct (@skip_limit_after_filter sqlite three_cats black 1 1 Hs Hs) as [_ E].
  split; [exact Hs|]. split; [exact Hs|].
  rewrite E. vm_compute. reflexivity.
Defined.

(** C7 fails on the code: [updateMany] updates the document and returns
    [undefined]. *)
Theorem updateMany_returns_undefined :
  let update := @updateMany sqlite (VObj [])
                  (VObj [("$set", VObj [("fur", VStr "white")])]) VUndef in
  fst (update one_cat) = Return VUndef /\
  fst (@findOne sqlite (VObj []) (after update one_cat))
  = Return (str_obj [("_id", "1"); ("name", "pypy"); ("fur", "white")]).
Proof. repeat split; vm_compute; reflexivity. Qed.

(** C8, as stated, fails: over an engine that reports SQLSTATE 23505, the
    second insert of a name under a unique index throws the engine's own
    error, code ["23505"], not the conflict code 11000. *)
Lemma unique_violation_untranslated :
  fst (@insertOne postgres pypy_again (unique_names postgres))
  = Throw {| code := VStr "23505";
             message := "duplicate key value violates unique constraint" |} /\
  (forall e, fst (@insertOne postgres pypy_again (unique_names postgres)) = Throw e ->
             code e <> VNum 11000).
Proof.
  split; [vm_compute; reflexivity|].
  intros e E. vm_compute in E. injection E as <-. discriminate.
Qed.

(** The unique index compares what the columns hold, and they hold text:
    after [{_id: 'a', n: 1}], a document with [n: '1'] is a duplicate. *)
Example unique_violation_number_and_text :
  fst (@insertOne sqlite (VObj [("_id", VStr "b"); ("n", VStr "1")]) unique_numbers)
  = Throw {| code := VNum 11000; message := "Not Unique" |} /\
  length (rows (after (@insertOne sqlite (VObj [("_id", VStr "b"); ("n", VStr "1")]))
                  unique_numbers)) = 1%nat.
Proof. split; vm_compute; reflexivity. Qed.

(** The update paths have no [try]/[catch]: over SQLite, [replaceOne] of a
    document that takes a name already under the unique index throws the
    engine's [SQLITE_CONSTRAINT] as it is. *)
Example replaceOne_violation_as_is :
  fst (@replaceOne sqlite (str_obj [("_id", "9"); ("name", "pypy")])
         (after (@insertOne sqlite (str_obj [("_id", "9"); ("name", "spike")]))
            (unique_names sqlite)))
  = Throw (@unique_error sqlite).
Proof. vm_compute. reflexivity. Qed.

Lemma unique_violation_translated_witness :
  fst (@insertOne sqlite pypy_again (unique_names sqlite))
  = Throw {| code := VNum 11000; message := "Not Unique" |} /\
  rows (after (@insertOne sqlite pypy_again) (unique_names sqlite))
  = rows (unique_names sqlite) /\
  length (rows (unique_names sqlite)) = 1%nat.
Proof.
  pose (row := [("_id", VStr "9");
                ("_ext_json", VStr "{3:_idS1:94:nameS4:pypy3:furS5:white}");
                ("name", VStr "pypy")]).
  assert (H1 : code (@unique_error sqlite) = VStr "SQLITE_CONSTRAINT") by reflexivity.
  assert (H2 : w_tableFailed (unique_names sqlite) = None) by reflexivity.
  assert (H3 : @prepareForInsert sqlite (w_indexes (unique_names sqlite)) pypy_again
                 (@cuid sqlite (w_cuids (unique_names sqlite))) = (Return row, false))
    by (vm_compute; reflexivity).
  assert (H4 : forallb (fun kv => Knex.hasColumn (fst kv) (w_table (unique_names sqlite)))
                 row = true) by (vm_compute; reflexivity).
  assert (H5 : existsb (fun cols => existsb (@Knex.collide sqlite cols
                                               (@Knex.bound_cells sqlite row))
                                      (rows (unique_names sqlite)))
                 (Knex.unique_keys (w_table (unique_names sqlite))) = true)
    by (vm_compute; reflexivity).
  destruct (@unique_violation_translated sqlite (unique_names sqlite) pypy_again row false
              H1 H2 H3 H4 H5) as [E [Et _]].
  split; [exact E|]. split; [|vm_compute; reflexivity].
  unfold rows, after. rewrite Et. reflexivity.
Defined.

Lemma deleteMany_at_most_one_witness :
  @primary_key sqlite three_cats /\
  length (rows three_cats) = 3%nat /\
  fst (@toArray sqlite (find black) three_cats) = Return [pypy; spyspy] /\
  match @deleteMany sqlite black three_cats with
  | (Return r, w') =>
      exists n, r = result "nDeleted" n /\ (0 <= n <= 1)%Z /\
                Z.of_nat (length (rows three_cats)) = (Z.of_nat (length (rows w')) + n)%Z /\
                forall row, In row (rows w') -> In row (rows three_cats)
  | (Throw e, w') => w' = three_cats
  end.
Proof.
  assert (Hpk : @primary_key sqlite three_cats) by (vm_compute; reflexivity).
  split; [exact Hpk|]. split; [vm_compute; reflexivity|].
  split; [vm_compute; reflexivity|].
  exact (proj1 (@deleteMany_at_most_one sqlite three_cats black Hpk)).
Defined.

(** Two documents match, one is deleted, the other is still found. *)
Example deleteMany_leaves_a_match :
  fst (@deleteMany sqlite black three_cats) = Return (result "nDeleted" 1) /\
  fst (@toArray sqlite (find black) (after (@deleteMany sqlite black) three_cats))
  = Return [spyspy].
Proof. split; vm_compute; reflexivity. Qed.



End Concrete.

(* ===================================================================== *)
(** ** The client and the readiness gate *)
(* ===================================================================== *)

Section Client.
Context `{Host}.

Lemma db_calls_from (calls : list value) (n : value) :
  truthy n = true ->
  fold_left (fun names name => snd (db name names)) calls [n] = [n].
Proof.
  intros Hn. induction calls as [|c calls IH]; simpl; [reflexivity|].
  unfold db at 2. destruct (truthy c); simpl; [|exact IH].
  destruct (strict_eq c n); simpl; exact IH.
Qed.

(** X1: however often and with whatever names [db] is called on a client,
    the client keeps one database name at most: the first truthy one it
    was given. *)
Theorem db_keeps_first_name (calls : list value) :
  db_calls calls =
  match List.find truthy calls with
  | Some n => [n]
  | None => []
  end.
Proof.
  unfold db_calls. induction calls as [|c calls IH]; simpl; [reflexivity|].
  unfold db at 2. destruct (truthy c) eqn:Ec; simpl; [|exact IH].
  apply db_calls_from, Ec.
Qed.

(** X2: once a client has been given the database name [m], [db(n)]
    returns for [n = m] and throws for every other non-empty name,
    leaving the client's names as they were; [db()] without a name
    always returns. *)
Theorem db_rejects_second_name (m n : string) :
  m <> "" -> n <> "" ->
  db (VStr n) (snd (db (VStr m) [])) =
  ((if String.eqb n m then Return tt
    else Throw (js_error
                  "@apostrophecms/sql is not currently able to manage multiple databases through one client connection")),
   [VStr m])
  /\ db VUndef (snd (db (VStr m) [])) = (Return tt, [VStr m]).
Proof.
  intros Hm Hn. unfold db. simpl.
  destruct (String.eqb_spec m "") as [E|_]; [contradiction|].
  destruct (String.eqb_spec n "") as [E|_]; [contradiction|].
  simpl. destruct (String.eqb n m); simpl; split; reflexivity.
Qed.

Lemma gate_calls_pending (callers : list nat) (g : gate) :
  tableFailed g = None -> tablePending g = true ->
  gate_calls callers g =
  (map (fun c => (c, Later)) callers,
   {| tablePending := true; tableFailed := None;
      readyQueue := readyQueue g ++ callers |}).
Proof.
  revert g. induction callers as [|c rest IH]; intros g Hf Hp; simpl.
  - rewrite app_nil_r. destruct g; simpl in *; subst; reflexivity.
  - unfold gate_ready. rewrite Hf, Hp. simpl.
    rewrite IH by reflexivity. simpl. rewrite <- app_assoc. reflexivity.
Qed.

Lemma gate_calls_settled (callers : list nat) (g : gate) (o : outcome unit) :
  fst (gate_ready 0 g) = Now o ->
  gate_calls callers g = (map (fun c => (c, Now o)) callers, g).
Proof.
  intros Ho. induction callers as [|c rest IH]; simpl; [reflexivity|].
  unfold gate_ready in Ho |- *.
  destruct (tableFailed g) as [e|].
  - simpl in Ho. injection Ho as <-. rewrite IH. reflexivity.
  - destruct (negb (tablePending g)); simpl in Ho; [|discriminate].
    injection Ho as <-. rewrite IH. reflexivity.
Qed.

(** X3: the callers of [ready()] that arrive while the table is being
    prepared all get a pending promise; when the preparation ends they are
    settled oldest first, each with its outcome (resolved, or rejected with
    the error caught); every caller that arrives afterwards gets that
    outcome at once and is not queued; and [ready] of the settled
    collection gives the same. *)
Theorem ready_queue_released (early late : list nat)
  (hasTable : outcome bool) (createTable : outcome unit) (w : world) :
  let prepared := prepare_table hasTable createTable in
  let outcome_of := match prepared with Return _ => Return tt | Throw e => Throw e end in
  let g1 := snd (gate_calls early new_gate) in
  let g2 := fst (settle prepared g1) in
  fst (gate_calls early new_gate) = map (fun c => (c, Later)) early /\
  snd (settle prepared g1) = map (fun c => (c, outcome_of)) early /\
  gate_calls late g2 = (map (fun c => (c, Now outcome_of)) late, g2) /\
  fst (ready (settled_world g2 w)) = outcome_of.
Proof.
  cbv zeta.
  rewrite (gate_calls_pending early new_gate eq_refl eq_refl). cbn [fst snd new_gate readyQueue app].
  split; [reflexivity|].
  destruct (prepare_table hasTable createTable) as [u|e]; cbn [settle fst snd readyQueue].
  - split; [reflexivity|]. split; [|reflexivity].
    apply gate_calls_settled. reflexivity.
  - split; [reflexivity|]. split; [|reflexivity].
    apply gate_calls_settled. reflexivity.
Qed.

End Client.

(* ===================================================================== *)
(** ** A table that could not be prepared *)
(* ===================================================================== *)

Section FailedTable.
Context `{Host}.

Lemma bind_ready_failed {A} (k : unit -> M A) (w : world) (e : error) :
  w_tableFailed w = Some e -> bind ready k w = (Throw e, w).
Proof. intros E. unfold bind, ready. rewrite E. reflexivity. Qed.

Lemma toArray_failed (q : query) (w : world) (e : error) :
  w_tableFailed w = Some e -> toArray q w = (Throw e, w).
Proof. intros E. unfold toArray. apply bind_ready_failed, E. Qed.

(** X4: when the table could not be prepared, every method that goes
    through [ready()] throws the error that was caught, untranslated, and
    leaves the collection as it is. *)
Theorem failed_table_fails_every_method (w : world) (e : error) :
  w_tableFailed w = Some e ->
  (forall fields options, createIndex fields options w = (Throw e, w)) /\
  (forall q, toArray q w = (Throw e, w)) /\
  (forall q, cursor_count q w = (Throw e, w)) /\
  (forall criteria, countDocuments criteria w = (Throw e, w)) /\
  (forall criteria, count criteria w = (Throw e, w)) /\
  (forall criteria, findOne criteria w = (Throw e, w)) /\
  (forall criteria, deleteOne criteria w = (Throw e, w)) /\
  (forall criteria, deleteMany criteria w = (Throw e, w)) /\
  (forall criteria, removeOne criteria w = (Throw e, w)) /\
  (forall criteria, removeMany criteria w = (Throw e, w)) /\
  (forall prop criteria, distinct prop criteria w = (Throw e, w)) /\
  (forall doc, insertOne doc w = (Throw e, w)) /\
  (forall docs, insertMany docs w = (Throw e, w)) /\
  (forall doc, replaceOne doc w = (Throw e, w)) /\
  (forall criteria operations options,
      updateOne criteria operations options w = (Throw e, w)) /\
  (forall criteria operations options,
      updateMany criteria operations options w = (Throw e, w)).
Proof.
  intros E.
  assert (T : forall A q (k : list value -> M A), bind (toArray q) k w = (Throw e, w)).
  { intros A q k. unfold bind at 1. rewrite (toArray_failed q w e E). reflexivity. }
  repeat split; intros;
    try (apply bind_ready_failed; exact E);
    try (apply toArray_failed; exact E);
    try (apply T).
Qed.

End FailedTable.

(* ===================================================================== *)
(** ** Column names *)
(* ===================================================================== *)

Section ColumnNames.

Lemma mangleName_app (a b : string) :
  mangleName (a ++ b) = (mangleName a ++ mangleName b)%string.
Proof.
  induction a as [|c a IH]; simpl; [reflexivity|].
  destruct (Ascii.eqb c "."); simpl; rewrite IH; reflexivity.
Qed.

Lemma mangleName_plain (name : string) :
  ~ In "."%char (list_ascii_of_string name) -> mangleName name = name.
Proof.
  induction name as [|c name IH]; simpl; [reflexivity|].
  intros Hc. destruct (Ascii.eqb_spec c "."%char) as [->|_].
  - exfalso. apply Hc. left. reflexivity.
  - rewrite IH; [reflexivity|]. intros Hin. apply Hc. right. exact Hin.
Qed.

(** X5: a column name never contains a dot, and mangling a column name
    again changes nothing. *)
Theorem mangleName_has_no_dot (name : string) :
  ~ In "."%char (list_ascii_of_string (mangleName name)) /\
  mangleName (mangleName name) = mangleName name.
Proof.
  assert (Hdot : ~ In "."%char (list_ascii_of_string (mangleName name))).
  { induction name as [|c name IH]; simpl; [intros []|].
    destruct (Ascii.eqb_spec c "."%char) as [->|Hc]; simpl.
    - intros [E|[E|Hin]]; [discriminate E | discriminate E | exact (IH Hin)].
    - intros [E|Hin]; [congruence | exact (IH Hin)]. }
  split; [exact Hdot | apply mangleName_plain, Hdot].
Qed.

Lemma length_append (a b : string) :
  String.length (a ++ b) = (String.length a + String.length b)%nat.
Proof. induction a as [|c a IH]; simpl; [reflexivity | rewrite IH; reflexivity]. Qed.

(** X6: the property paths [a.b] and [a__b] are different and get the same
    column, whatever [a] and [b] are: column names do not tell them apart. *)
Theorem mangleName_collision (a b : string) :
  (a ++ "." ++ b)%string <> (a ++ "__" ++ b)%string /\
  mangleName (a ++ "." ++ b) = mangleName (a ++ "__" ++ b).
Proof.
  split.
  - intros E. apply (f_equal String.length) in E.
    rewrite !length_append in E. simpl in E. lia.
  - rewrite !mangleName_app. reflexivity.
Qed.

End ColumnNames.

(* ===================================================================== *)
(** ** What is pushed down *)
(* ===================================================================== *)

Section PushedDown.

(** [(value !== undefined) && ((typeof value) !== 'object')] for the value
    the criteria give a field *)
Definition pushable (criteria : value) (field : string) : bool :=
  negb (is_undef (deepGet criteria field)) && typeof_not_object (deepGet criteria field).

(** X7: of the fields of an index, the ones pushed down are a prefix of
    its field list: each of them has a defined, non-object value in the
    criteria and is tested against that value, and the field right after
    the prefix, if there is one, has none. *)
Theorem index_wheres_prefix (criteria : value) (columnNames : list string) :
  exists n,
    index_wheres criteria columnNames =
      map (fun c => (c, deepGet criteria c)) (firstn n columnNames) /\
    forallb (pushable criteria) (firstn n columnNames) = true /\
    match nth_error columnNames n with
    | Some c => pushable criteria c = false
    | None => n = length columnNames
    end.
Proof.
  induction columnNames as [|c rest [n [E [Hall Hnext]]]]; simpl.
  - exists 0%nat. repeat split.
  - fold (pushable criteria c). destruct (pushable criteria c) eqn:Ec.
    + exists (S n). simpl. rewrite Ec, E, Hall. repeat split.
      destruct (nth_error rest n); [exact Hnext | f_equal; exact Hnext].
    + exists 0%nat. simpl. repeat split. exact Ec.
Qed.

End PushedDown.

(* ===================================================================== *)
(** ** More on reading *)
(* ===================================================================== *)

Section MoreReading.
Context `{Host}.

Lemma paginate_limit_length (q : query) (l : Z) (docs : list value) :
  limitParam q = Some l -> (0 < l)%Z ->
  (Z.of_nat (length (paginate q docs)) <= l)%Z.
Proof.
  intros Hl Hpos. unfold paginate. rewrite Hl. unfold given.
  destruct (Z.eqb_spec l 0) as [->|_]; [lia|].
  rewrite slice_to_firstn by lia. rewrite length_firstn. lia.
Qed.

(** X8: whatever the cursor, [toArray] only reads: it leaves the
    collection as it is, and each document it returns is the decoded blob
    of a stored row that the matcher accepts; with a limit [l > 0] it
    returns [l] documents at most. *)
Theorem toArray_reads_matching_rows (q : query) (w : world) (docs : list value) :
  fst (toArray q w) = Return docs ->
  snd (toArray q w) = w /\
  (forall d, In d docs ->
     exists row, In row (rows w) /\ d = decode row /\ sift (q_criteria q) d = true) /\
  (forall l, limitParam q = Some l -> (0 < l)%Z -> (Z.of_nat (length docs) <= l)%Z).
Proof.
  intros E. split; [rewrite toArray_matched; reflexivity|].
  split; [apply (toArray_decodes_rows q w docs E)|].
  intros l Hl Hpos. rewrite toArray_matched in E. cbn [fst] in E.
  destruct (matched q w) as [all|]; [|discriminate].
  injection E as <-. apply paginate_limit_length; assumption.
Qed.

(** X9: when the criteria give no value that can be pushed down for any
    registered index, [find(criteria).toArray()] is the stored documents
    the matcher accepts, all of them, in the order of the table. *)
Theorem find_without_pushdown (w : world) (criteria : value) :
  w_tableFailed w = None ->
  criteria <> VNull ->
  wheres (w_indexes w) (q_criteria (find criteria)) = [] ->
  toArray (find criteria) w =
  (Return (map decode
             (filter (fun row => sift (q_criteria (find criteria)) (decode row)) (rows w))),
   w).
Proof.
  intros Hready Hnull Hw. rewrite toArray_matched. f_equal.
  unfold matched. rewrite Hready. unfold build_query.
  assert (Hn : nullish (q_criteria (find criteria)) = false).
  { unfold find; simpl. destruct criteria; simpl; congruence. }
  rewrite Hn, Hw. cbn [andb sortParams find].
  rewrite select_unordered. cbn [map List.find forallb outcome_map].
  rewrite paginate_find. f_equal. f_equal. f_equal.
  unfold rows. induction (t_rows (w_table w)) as [|r l IH]; simpl; [reflexivity|].
  f_equal. exact IH.
Qed.

Lemma matched_skip_limit_one (criteria : value) (w : world) :
  matched (limit 1 (find criteria)) w = matched (find criteria) w.
Proof. reflexivity. Qed.

Lemma nth_firstn_one {A} (l : list A) (d : A) : nth 0 (firstn 1 l) d = nth 0 l d.
Proof. destruct l; reflexivity. Qed.

Lemma findOne_first (criteria : value) (w : world) :
  findOne criteria w =
  (outcome_map (fun docs => nth 0 docs VUndef) (fst (toArray (find criteria) w)), w).
Proof.
  unfold findOne, bind, ret. rewrite !toArray_matched. cbn [fst].
  rewrite matched_skip_limit_one.
  destruct (matched (find criteria) w) as [docs|e]; cbn [outcome_map]; [|reflexivity].
  rewrite paginate_find. unfold paginate; simpl.
  rewrite slice_to_firstn by lia. simpl Z.to_nat.
  rewrite nth_firstn_one. reflexivity.
Qed.

(** X10: [findOne(criteria)] is the first document of
    [find(criteria).toArray()], and [undefined] when that is empty; it
    throws what [toArray] throws. *)
Theorem findOne_is_first_of_find (criteria : value) (w : world) :
  findOne criteria w =
  (outcome_map (fun docs => nth 0 docs VUndef) (fst (toArray (find criteria) w)), w).
Proof. apply findOne_first. Qed.

End MoreReading.

Section NegativeCounts.
Context `{Host}.

Lemma clamp_negative (len : nat) (k : Z) :
  (0 < k)%Z -> clamp len (- k) = (len - Z.to_nat k)%nat.
Proof.
  intros Hk. unfold clamp.
  destruct (Z.ltb_spec (- k) 0); lia.
Qed.

(** X11: counts below zero are taken from the end, as [slice] does:
    [skip(-k)] keeps the last [k] documents of the result and [limit(-k)]
    drops its last [k]. *)
Theorem negative_skip_and_limit (w : world) (P : value) (k : Z) :
  (0 < k)%Z ->
  toArray (skip (- k) (find P)) w =
    (outcome_map (fun docs => skipn (length docs - Z.to_nat k) docs)
       (fst (toArray (find P) w)), w) /\
  toArray (limit (- k) (find P)) w =
    (outcome_map (fun docs => firstn (length docs - Z.to_nat k) docs)
       (fst (toArray (find P) w)), w).
Proof.
  intros Hk. rewrite !toArray_matched. cbn [fst].
  change (matched (skip (- k) (find P)) w) with (matched (find P) w).
  change (matched (limit (- k) (find P)) w) with (matched (find P) w).
  destruct (matched (find P) w) as [docs|e]; cbn [outcome_map]; [|split; reflexivity].
  rewrite paginate_find. unfold paginate, given; simpl.
  destruct (Z.eqb_spec (- k) 0) as [E|_]; [lia|].
  unfold slice_from, slice_to. rewrite clamp_negative by exact Hk.
  split; reflexivity.
Qed.

End NegativeCounts.

(* ===================================================================== *)
(** ** Creating an index *)
(* ===================================================================== *)

Section Indexing.
Context `{Host}.

(** The descriptor [createIndex(fields, options = {})] pushes. *)
Definition descriptor (fields options : value) : index :=
  {| fields := fields; options := if is_undef options then VObj [] else options |}.

Lemma knex_alterTable_keeps (new cols : list string) (unique : bool) (w : world) :
  w_indexes (snd (knex (Knex.alterTable new cols unique) w)) = w_indexes w /\
  rows (snd (knex (Knex.alterTable new cols unique) w)) = rows w.
Proof.
  unfold knex. pose proof (alterTable_rows new cols unique (w_table w)) as Hr.
  destruct (Knex.alterTable new cols unique (w_table w)) as [o t'].
  simpl in Hr. split; [reflexivity | exact Hr].
Qed.

(** X12: on a table that is ready, [createIndex] with fields that are not
    null registers its descriptor whether or not altering the table
    succeeds, and it never touches a stored row: the columns it adds are
    not filled in for the documents already there. *)
Theorem createIndex_registers_and_keeps_rows (w : world) (fields options : value) :
  w_tableFailed w = None ->
  nullish fields = false ->
  w_indexes (snd (createIndex fields options w)) = w_indexes w ++ [descriptor fields options]
  /\ rows (snd (createIndex fields options w)) = rows w.
Proof.
  intros Hready Hfields. unfold createIndex, bind, ready, ret.
  rewrite Hready, Hfields. cbv zeta.
  set (opts := if is_undef options then VObj [] else options).
  set (w1 := mkWorld _ _ _ _ _).
  set (attempt := match opts with VNull => throw type_error | _ => knex _ end).
  assert (Ha : w_indexes (snd (attempt w1)) = w_indexes w1 /\ rows (snd (attempt w1)) = rows w1).
  { subst attempt. destruct opts; try (split; reflexivity); apply knex_alterTable_keeps. }
  destruct Ha as [Hi Hr].
  destruct (attempt w1) as [[[]|e] w2]; cbn [snd] in *.
  - split; [exact Hi | exact Hr].
  - destruct (includes _ _); cbn [snd]; split; assumption.
Qed.

Lemma no_column_missing (t : table) (cols : list string) :
  forallb (fun c => Knex.hasColumn c t) cols = true ->
  filter (fun c => negb (Knex.hasColumn c t)) cols = [].
Proof.
  induction cols as [|c l IH]; simpl; [reflexivity|].
  rewrite andb_true_iff. intros [Hc Hl]. rewrite Hc. simpl. apply IH, Hl.
Qed.

(** X13: when the index is in place already (its columns exist, an index
    of the same kind on them exists) and the engine's error for that says
    [already exists], [createIndex] swallows the error: it returns, the
    table is unchanged, and the descriptor is registered once more. *)
Theorem createIndex_existing_index (w : world) (fields options : value) :
  w_tableFailed w = None ->
  nullish fields = false ->
  options <> VNull ->
  keys fields <> [] ->
  forallb (fun c => Knex.hasColumn c (w_table w)) (map mangleName (keys fields)) = true ->
  existsb (Knex.same_index
             (map mangleName (keys fields),
              truthy (get (if is_undef options then VObj [] else options) "unique")))
    (t_indexes (w_table w)) = true ->
  includes "already exists" (error_toString index_exists_error) = true ->
  createIndex fields options w =
  (Return tt,
   {| w_table := w_table w;
      w_indexes := w_indexes w ++ [descriptor fields options];
      w_tableFailed := w_tableFailed w;
      w_cuids := w_cuids w; w_ticks := w_ticks w |}).
Proof.
  intros Hready Hfields Hopt Hkeys Hcols Hidx Hmsg.
  unfold createIndex, bind, ready, ret. rewrite Hready, Hfields. cbv zeta.
  set (opts := if is_undef options then VObj [] else options) in *.
  assert (Hnew : filter (fun c => negb (Knex.hasColumn c (w_table w)))
                   (map mangleName (keys fields)) = []).
  { apply no_column_missing, Hcols. }
  rewrite Hnew.
  assert (Halter : Knex.alterTable [] (map mangleName (keys fields))
                     (truthy (get opts "unique")) (w_table w)
                   = (Throw index_exists_error, w_table w)).
  { unfold Knex.alterTable, Knex.add_index. simpl.
    destruct (map mangleName (keys fields)) as [|c l] eqn:Ec.
    - destruct (keys fields); [contradiction | discriminate].
    - rewrite Hidx. reflexivity. }
  assert (Hnn : opts <> VNull).
  { subst opts. destruct options; simpl; congruence. }
  unfold descriptor. fold opts. clearbody opts.
  destruct opts; try contradiction; unfold knex; cbn [w_table];
    rewrite Halter, Hmsg; unfold set_table; cbn [w_table w_indexes w_tableFailed w_cuids w_ticks];
    rewrite ?Hready; reflexivity.
Qed.

End Indexing.

Section IndexingErrors.
Context `{Host}.

(** X14: on a table that is ready, [createIndex] never lets an error
    through whose text contains [already exists]. *)
Theorem createIndex_never_throws_already_exists
  (w : world) (fields options : value) (e : error) :
  w_tableFailed w = None ->
  fst (createIndex fields options w) = Throw e ->
  includes "already exists" (error_toString e) = false.
Proof.
  intros Hready. unfold createIndex, bind, ready, ret, throw. rewrite Hready.
  destruct (nullish fields).
  - cbn [fst]. intros E. injection E as <-. reflexivity.
  - cbv zeta.
    match goal with |- context [?attempt (mkWorld ?a ?b ?c ?d ?f)] =>
      destruct (attempt (mkWorld a b c d f)) as [[[]|e'] w2] end.
    + discriminate.
    + destruct (includes "already exists" (error_toString e')) eqn:Ei; [discriminate|].
      cbn [fst]. intros E. injection E as <-. exact Ei.
Qed.

End IndexingErrors.

(* ===================================================================== *)
(** ** What gets written *)
(* ===================================================================== *)

Section Writing.
Context `{Host}.

Lemma lookup_In (k : string) (v : value) (o : obj) :
  lookup k o = Some v -> In (k, v) o.
Proof.
  induction o as [|[k' x] o IH]; simpl; [discriminate|].
  destruct (String.eqb_spec k' k) as [->|_].
  - intros E. injection E as ->. left. reflexivity.
  - intros E. right. apply IH, E.
Qed.

Lemma In_lookup (k : string) (v : value) (o : obj) :
  NoDup (map fst o) -> In (k, v) o -> lookup k o = Some v.
Proof.
  induction o as [|[k' x] o IH]; simpl; [intros _ []|].
  intros Hnd [E|Hin]; inversion Hnd as [|? ? Hk Ho]; subst.
  - injection E as -> ->. rewrite String.eqb_refl. reflexivity.
  - destruct (String.eqb_spec k' k) as [->|_]; [|apply IH; assumption].
    exfalso. apply Hk. apply (in_map fst) in Hin. exact Hin.
Qed.

(** The last assignment to a key wins. *)
Lemma fold_assign_lookup {A} (name : A -> string) (val : A -> value)
  (items : list A) (k : string) (v : value) (row : obj) :
  (forall g, In g items -> name g = k -> val g = v) ->
  (exists g, In g items /\ name g = k) \/ lookup k row = Some v ->
  lookup k (fold_left (fun r g => assign (name g) (val g) r) items row) = Some v.
Proof.
  revert row. induction items as [|g items IH]; intros row Hall Hsome; simpl.
  - destruct Hsome as [[g [[] _]]|E]. exact E.
  - apply IH.
    + intros g' Hg'. apply Hall. right. exact Hg'.
    + destruct (String.eqb_spec (name g) k) as [Ek|Hne].
      * right. rewrite <- Ek. rewrite lookup_assign_same. f_equal.
        apply Hall; [left; reflexivity | exact Ek].
      * destruct Hsome as [[g' [[->|Hg'] Ek]]|E].
        -- contradiction.
        -- left. exists g'. split; assumption.
        -- right. rewrite lookup_assign_other by congruence. exact E.
Qed.

(** Every field of every registered index, in the order [prepareForUpdate]
    goes through them. *)
Definition indexed_fields (indexes : list index) : list string :=
  flat_map (fun ix => keys (fields ix)) indexes.

Lemma promoted_flat (indexes : list index) (doc : value) (row : obj) :
  promoted indexes doc row =
  fold_left (fun r f => assign (mangleName f) (deepGet doc f) r) (indexed_fields indexes) row.
Proof.
  unfold promoted, indexed_fields. revert row.
  induction indexes as [|ix indexes IH]; intros row; simpl; [reflexivity|].
  rewrite fold_left_app. apply IH.
Qed.

Lemma prepareForUpdate_promoted (indexes : list index) (doc : value) (row : obj) :
  prepareForUpdate indexes doc = Return row ->
  nullish doc = false /\
  row = promoted indexes doc
          [("_id", get doc "_id"); ("_ext_json", VStr (EJSON_stringify doc))].
Proof.
  unfold prepareForUpdate. destruct (nullish doc); [discriminate|].
  intros E. injection E as <-. split; reflexivity.
Qed.

(** X15: in the row [prepareForUpdate] builds, the column of every field
    of every registered index holds [deepGet(doc, field)], provided the
    fields that share its column name give the same value; the blob column
    holds the encoded document unless an index field is named like it. *)
Theorem prepareForUpdate_mirrors (indexes : list index) (doc : value) (row : obj)
  (field : string) :
  prepareForUpdate indexes doc = Return row ->
  In field (indexed_fields indexes) ->
  (forall g, In g (indexed_fields indexes) -> mangleName g = mangleName field ->
             deepGet doc g = deepGet doc field) ->
  lookup (mangleName field) row = Some (deepGet doc field) /\
  (no_blob_field indexes = true ->
   lookup "_ext_json" row = Some (VStr (EJSON_stringify doc))).
Proof.
  intros Hrow Hin Hsame.
  apply prepareForUpdate_promoted in Hrow as [_ ->]. split.
  - rewrite promoted_flat. apply fold_assign_lookup.
    + exact Hsame.
    + left. exists field. split; [exact Hin | reflexivity].
  - intros Hblob. rewrite promoted_blob by exact Hblob. reflexivity.
Qed.

End Writing.

Section Storing.
Context `{Host}.



Lemma first_row_keys (doc : value) :
  NoDup (map fst [("_id", get doc "_id"); ("_ext_json", VStr (EJSON_stringify doc))]).
Proof. simpl. repeat constructor; simpl; intuition discriminate. Qed.



Lemma touched_ok_untouched (cols : list string) (l : list obj) :
  Knex.touched_ok cols (map (fun old => (false, old)) l) = true.
Proof.
  induction l as [|r l IH]; simpl; [reflexivity|].
  rewrite IH, andb_true_r. apply forallb_forall. intros [m r'] Hin.
  apply in_map_iff in Hin as [old [E _]]. injection E as <- <-. reflexivity.
Qed.

Lemma map_snd_untouched (l : list obj) :
  map snd (map (fun old : obj => (false, old)) l) = l.
Proof. induction l as [|r l IH]; simpl; [reflexivity | rewrite IH; reflexivity]. Qed.

Lemma filter_fst_untouched (l : list obj) :
  filter fst (map (fun old : obj => (false, old)) l) = [].
Proof. induction l as [|r l IH]; simpl; [reflexivity | exact IH]. Qed.

(** X17: [replaceOne(doc)] does not look at how many rows it changed: when
    no stored row has the [_id] of [doc], it still returns [nModified: 1],
    and the collection is exactly as before. *)
Theorem replaceOne_absent_id (w : world) (doc : value) (row : obj) :
  w_tableFailed w = None ->
  prepareForUpdate (w_indexes w) doc = Return row ->
  is_undef (get doc "_id") = false ->
  forallb (fun kv => Knex.hasColumn (fst kv) (w_table w)) (Knex.bound_cells row) = true ->
  forallb (fun old => negb (Knex.where_holds old ("_id", get doc "_id"))) (rows w) = true ->
  replaceOne doc w = (Return (result "nModified" 1), w).
Proof.
  intros Hready Hrow Hid Hcols Hnone.
  unfold replaceOne, update_doc, bind, ready, lift, ret, knex, Knex.update.
  rewrite Hready, Hrow, Hid. rewrite (find_none_forallb _ _ Hcols).
  assert (Hmarked : map (fun old => if Knex.where_holds old ("_id", get doc "_id")
                                    then (true, assign_all old (Knex.bound_cells row))
                                    else (false, old)) (t_rows (w_table w))
                    = map (fun old => (false, old)) (t_rows (w_table w))).
  { apply map_ext_in. intros old Hold.
    rewrite forallb_forall in Hnone. specialize (Hnone old Hold).
    apply negb_true_iff in Hnone. rewrite Hnone. reflexivity. }
  rewrite Hmarked.
  assert (Hok : forallb (fun cols => Knex.touched_ok cols
                                      (map (fun old => (false, old)) (t_rows (w_table w))))
                  (Knex.unique_keys (w_table w)) = true).
  { apply forallb_forall. intros cols _. apply touched_ok_untouched. }
  rewrite Hok, map_snd_untouched. cbn [fst snd].
  f_equal. destruct w as [[cs ixs rs] ? ? ? ?]. reflexivity.
Qed.

Lemma bound_cells_keys (row : obj) :
  NoDup (map fst row) -> NoDup (map fst (Knex.bound_cells row)).
Proof.
  induction row as [|[k x] row IH]; [constructor|].
  intros Hnd. inversion Hnd as [|? ? Hk Hrow]; subst.
  unfold Knex.bound_cells. cbn [filter snd].
  destruct (is_undef x); cbn [negb map fst]; fold (Knex.bound_cells row);
    [apply IH, Hrow|].
  constructor; [|apply IH, Hrow].
  intros Hin. apply Hk, bound_cells_names, Hin.
Qed.

(** X18: when [replaceOne(doc)] returns, every stored row whose [_id]
    equals [doc._id] decodes to [doc] from then on, and every other row is
    untouched (the codec round-trips [doc], no index field is named like
    the blob column). *)
Theorem replaceOne_round_trip (w w' : world) (doc r : value) :
  no_blob_field (w_indexes w) = true ->
  EJSON_parse (VStr (EJSON_stringify doc)) = doc ->
  replaceOne doc w = (Return r, w') ->
  r = result "nModified" 1 /\
  Forall2 (fun old new =>
             if Knex.where_holds old ("_id", get doc "_id")
             then decode new = doc else new = old)
    (rows w) (rows w').
Proof.
  intros Hblob Hround. unfold replaceOne, update_doc, bind, ready, lift, ret, knex.
  destruct (w_tableFailed w); [discriminate|].
  destruct (prepareForUpdate (w_indexes w) doc) as [row|e] eqn:Erow; [|discriminate].
  destruct (Knex.update row (get doc "_id") (w_table w)) as [[n|e] t'] eqn:Eup;
    [|discriminate].
  intros E. injection E as <- <-. split; [reflexivity|].
  apply prepareForUpdate_promoted in Erow as [_ Erow].
  assert (Hnd : NoDup (map fst row)).
  { rewrite Erow. apply promoted_keys, first_row_keys. }
  assert (Hb : lookup "_ext_json" row = Some (VStr (EJSON_stringify doc))).
  { rewrite Erow, promoted_blob by exact Hblob. reflexivity. }
  assert (Hin : In ("_ext_json", VStr (EJSON_stringify doc)) (Knex.bound_cells row)).
  { unfold Knex.bound_cells. apply in_map_iff.
    exists ("_ext_json", VStr (EJSON_stringify doc)). cbn [fst snd].
    rewrite stored_string. split; [reflexivity|].
    apply filter_In. split; [apply lookup_In, Hb | reflexivity]. }
  pose proof (bound_cells_keys row Hnd) as Hndb.
  unfold Knex.update in Eup. destruct (is_undef (get doc "_id")); [discriminate|].
  destruct (List.find _ (Knex.bound_cells row)); [discriminate|].
  destruct (forallb _ (Knex.unique_keys (w_table w))); [|discriminate].
  injection Eup as _ <-. unfold rows. cbn [w_table set_table t_rows].
  induction (t_rows (w_table w)) as [|old l IH]; simpl; [constructor|].
  constructor; [|exact IH].
  destruct (Knex.where_holds old ("_id", get doc "_id")); simpl; [|reflexivity].
  unfold decode, Knex.cell, assign_all.
  rewrite (fold_assign_lookup fst snd _ "_ext_json" (VStr (EJSON_stringify doc))).
  - exact Hround.
  - intros [k x] Hg Hk. simpl in Hk |- *. subst k.
    pose proof (In_lookup _ _ _ Hndb Hg) as E1.
    pose proof (In_lookup _ _ _ Hndb Hin) as E2. congruence.
  - left. exists ("_ext_json", VStr (EJSON_stringify doc)). split; [exact Hin | reflexivity].
Qed.

End Storing.

(* ===================================================================== *)
(** ** More on update operators *)
(* ===================================================================== *)

Section MoreOperators.
Context `{Host}.

(** [updateBody]'s operator loop on [{$inc: {p: d}}] *)
Definition inc (p : string) (d : Z) (doc : value) : outcome value :=
  each apply_operator [("$inc", VObj [(p, VNum d)])] doc.

(** a step that may throw, [k] times over *)
Fixpoint times (k : nat) (step : value -> outcome value) (doc : value) : outcome value :=
  match k with
  | O => Return doc
  | S k =>
      match step doc with
      | Return doc' => times k step doc'
      | Throw e => Throw e
      end
  end.

Lemma assign_assign (k : string) (u v : value) (o : obj) :
  assign k v (assign k u o) = assign k v o.
Proof.
  induction o as [|[k' x] o IH]; simpl.
  - rewrite String.eqb_refl. reflexivity.
  - destruct (String.eqb k' k) eqn:Ek; simpl; rewrite Ek; [reflexivity|].
    rewrite IH. reflexivity.
Qed.

Lemma safe_zero : safe_integer 0.
Proof. unfold safe_integer. simpl. lia. Qed.

(** Between two safe integers every step of an arithmetic progression is
    safe. *)
Lemma safe_between (k : nat) (a d : Z) :
  safe_integer a -> safe_integer (a + Z.of_nat (S k) * d) -> safe_integer (a + d).
Proof.
  unfold safe_integer. rewrite Nat2Z.inj_succ, Z.mul_succ_l.
  intros Ha Hk.
  destruct (Z.le_gt_cases 0 d) as [Hd|Hd].
  - assert (0 <= Z.of_nat k * d)%Z by (apply Z.mul_nonneg_nonneg; lia). lia.
  - assert (Z.of_nat k * d <= 0)%Z by (apply Z.mul_nonneg_nonpos; lia). lia.
Qed.

Lemma inc_present (o : obj) (p : string) (a d : Z) :
  lookup p o = Some (VNum a) ->
  safe_integer a -> safe_integer d -> safe_integer (a + d) ->
  inc p d (VObj o) = Return (VObj (assign p (VNum (a + d)) o)).
Proof.
  intros E Ha Hd Hs. unfold inc, each, apply_operator. simpl.
  unfold op_inc, entries_of. simpl. rewrite E. simpl. rewrite E.
  rewrite js_add_num by assumption. reflexivity.
Qed.

Lemma inc_absent (o : obj) (p : string) (d : Z) :
  lookup p o = None -> safe_integer d ->
  inc p d (VObj o) = Return (VObj (assign p (VNum d) o)).
Proof.
  intros E Hd. unfold inc, each, apply_operator. simpl.
  unfold op_inc, entries_of. simpl. rewrite E. simpl.
  rewrite lookup_assign_same, js_add_num, assign_assign by (exact Hd || apply safe_zero).
  reflexivity.
Qed.

Lemma inc_times_present (k : nat) (o : obj) (p : string) (a d : Z) :
  lookup p o = Some (VNum a) ->
  safe_integer a -> safe_integer d -> safe_integer (a + Z.of_nat k * d) ->
  exists o', times k (inc p d) (VObj o) = Return (VObj o') /\
             lookup p o' = Some (VNum (a + Z.of_nat k * d)) /\
             forall q, q <> p -> lookup q o' = lookup q o.
Proof.
  revert o a. induction k as [|k IH]; intros o a E Ha Hd Hk.
  - exists o. simpl. rewrite Z.add_0_r. repeat split; assumption.
  - pose proof (safe_between k a d Ha Hk) as Hstep.
    cbn [times]. rewrite (inc_present o p a d E Ha Hd Hstep).
    destruct (IH (assign p (VNum (a + d)) o) (a + d)%Z (lookup_assign_same _ _ _) Hstep Hd)
      as [o' [Et [Ep Hq]]].
    { replace (a + d + Z.of_nat k * d)%Z with (a + Z.of_nat (S k) * d)%Z by lia.
      exact Hk. }
    exists o'. split; [exact Et|]. split.
    + rewrite Ep. f_equal. f_equal. lia.
    + intros q Hne. rewrite (Hq q Hne). apply lookup_assign_other, Hne.
Qed.

(** X19: on integers that stay within the range a double holds exactly
    (2^53 in size at most), [$inc] of [d] on a property that holds the
    number [a], applied [k] times in a row, leaves [a + k * d] there and
    every other property as it was; on a document without the property the
    count starts from 0.  (On a document without the property the name is
    not [__proto__], which is no property to assign to.) *)
Theorem inc_accumulates (k : nat) (o : obj) (p : string) (d : Z) :
  safe_integer d ->
  (forall a, lookup p o = Some (VNum a) ->
     safe_integer a -> safe_integer (a + Z.of_nat k * d) ->
     exists o', times k (inc p d) (VObj o) = Return (VObj o') /\
                lookup p o' = Some (VNum (a + Z.of_nat k * d)) /\
                forall q, q <> p -> lookup q o' = lookup q o) /\
  (lookup p o = None -> p <> "__proto__" ->
     safe_integer (Z.of_nat (S k) * d) ->
     exists o', times (S k) (inc p d) (VObj o) = Return (VObj o') /\
                lookup p o' = Some (VNum (Z.of_nat (S k) * d)) /\
                forall q, q <> p -> lookup q o' = lookup q o).
Proof.
  intros Hd. split.
  - intros a E Ha Hk. apply inc_times_present; assumption.
  - intros E _ Hk. cbn [times]. rewrite (inc_absent o p d E Hd).
    destruct (inc_times_present k (assign p (VNum d) o) p d d (lookup_assign_same _ _ _) Hd Hd)
      as [o' [Et [Ep Hq]]].
    { replace (d + Z.of_nat k * d)%Z with (Z.of_nat (S k) * d)%Z by lia. exact Hk. }
    exists o'. split; [exact Et|]. split.
    + rewrite Ep. f_equal. f_equal. lia.
    + intros q Hne. rewrite (Hq q Hne). apply lookup_assign_other, Hne.
Qed.

Lemma lookup_remove_same (k : string) (o : obj) : lookup k (remove k o) = None.
Proof.
  induction o as [|[k' x] o IH]; simpl; [reflexivity|].
  destruct (String.eqb k' k) eqn:E; simpl; [exact IH | rewrite E; exact IH].
Qed.

Lemma lookup_remove_other (k k' : string) (o : obj) :
  k <> k' -> lookup k (remove k' o) = lookup k o.
Proof.
  intros Hne. induction o as [|[k0 x] o IH]; simpl; [reflexivity|].
  destruct (String.eqb_spec k0 k') as [->|Hne0]; simpl.
  - destruct (String.eqb_spec k' k); [congruence | exact IH].
  - destruct (String.eqb k0 k); [reflexivity | exact IH].
Qed.

(** X20: the operators run in the order of the keys of the operations
    object, not in a fixed order: [{$set: {k: v}, $unset: {k: _}}] leaves
    the document without [k], [{$unset: {k: _}, $set: {k: v}}] leaves it
    with [k = v]; the other properties are the same either way. *)
Theorem operators_run_in_key_order (o : obj) (k : string) (v any : value) :
  exists o1 o2,
    each apply_operator
      (entries (VObj [("$set", VObj [(k, v)]); ("$unset", VObj [(k, any)])])) (VObj o)
    = Return (VObj o1) /\
    each apply_operator
      (entries (VObj [("$unset", VObj [(k, any)]); ("$set", VObj [(k, v)])])) (VObj o)
    = Return (VObj o2) /\
    lookup k o1 = None /\ lookup k o2 = Some v /\
    forall q, q <> k -> lookup q o1 = lookup q o /\ lookup q o2 = lookup q o.
Proof.
  exists (remove k (assign k v o)), (assign k v (remove k o)).
  split; [reflexivity|]. split; [reflexivity|].
  split; [apply lookup_remove_same|]. split; [apply lookup_assign_same|].
  intros q Hq. split.
  - rewrite lookup_remove_other, lookup_assign_other by exact Hq. reflexivity.
  - rewrite lookup_assign_other, lookup_remove_other by exact Hq. reflexivity.
Qed.

(** The operator keys [updateBody] knows. *)
Definition supported (key : string) : bool :=
  String.eqb key "$set" || String.eqb key "$unset" || String.eqb key "$inc"
  || String.eqb key "$pull" || String.eqb key "$addToSet".

Lemma each_unsupported (ops : obj) (doc : value) :
  existsb (fun kv => negb (supported (fst kv))) ops = true ->
  exists e, each apply_operator ops doc = Throw e.
Proof.
  revert doc. induction ops as [|[key arg] ops IH]; intros doc; simpl; [discriminate|].
  destruct (apply_operator doc (key, arg)) as [doc'|e] eqn:Estep.
  - intros Hex. apply IH. apply orb_true_iff in Hex as [Hk|Hex]; [|exact Hex].
    exfalso. unfold apply_operator, supported in *. simpl in *.
    destruct (String.eqb key "$set"); [discriminate|].
    destruct (String.eqb key "$unset"); [discriminate|].
    destruct (String.eqb key "$inc"); [discriminate|].
    destruct (String.eqb key "$pull"); [discriminate|].
    destruct (String.eqb key "$addToSet"); discriminate.
  - intros _. exists e. reflexivity.
Qed.

Lemma In_assign_other (k k' : string) (x v : value) (o : obj) :
  k <> k' -> In (k, x) o -> In (k, x) (assign k' v o).
Proof.
  intros Hne. induction o as [|[k0 y] o IH]; simpl; [intros []|].
  intros [E|Hin].
  - injection E as -> ->. destruct (String.eqb_spec k k'); [contradiction|]. left. reflexivity.
  - destruct (String.eqb k0 k'); [right; exact Hin | right; apply IH, Hin].
Qed.

Lemma In_remove_other (k k' : string) (x : value) (o : obj) :
  k <> k' -> In (k, x) o -> In (k, x) (remove k' o).
Proof.
  intros Hne. induction o as [|[k0 y] o IH]; simpl; [intros []|].
  intros [E|Hin].
  - injection E as -> ->. destruct (String.eqb_spec k k'); [contradiction|]. left. reflexivity.
  - destruct (String.eqb k0 k'); [apply IH, Hin | right; apply IH, Hin].
Qed.

Lemma update_throw_keeps_table (row : obj) (id : value) (t t' : table) (e : error) :
  Knex.update row id t = (Throw e, t') -> t' = t.
Proof.
  unfold Knex.update. destruct (is_undef id); [intros E; injection E as _ <-; reflexivity|].
  destruct (List.find _ _); [intros E; injection E as _ <-; reflexivity|].
  destruct (forallb _ _); [discriminate|]. intros E; injection E as _ <-; reflexivity.
Qed.

Lemma operators_table (operations : value) (w : world) :
  w_table (snd (operators operations w)) = w_table w /\
  w_indexes (snd (operators operations w)) = w_indexes w.
Proof.
  unfold operators. destruct (nullish operations); [split; reflexivity|].
  destruct (truthy _); split; reflexivity.
Qed.

(** X21: when [updateBody] throws, whatever the reason (an operator that
    is not supported, an operator that cannot apply to the document, the
    engine refusing the update), no row of the table has changed. *)
Theorem updateBody_throw_writes_nothing (doc operations : value) (w : world) (e : error) :
  fst (updateBody doc operations w) = Throw e ->
  w_table (snd (updateBody doc operations w)) = w_table w.
Proof.
  unfold updateBody, bind, lift, ret.
  pose proof (operators_table operations w) as [Ht _].
  destruct (operators operations w) as [[ops|e0] w1]; cbn [snd] in Ht; [|intros _; exact Ht].
  destruct (each apply_operator ops doc) as [doc'|e1]; [|intros _; exact Ht].
  unfold update_doc, bind, lift, knex.
  destruct (prepareForUpdate (w_indexes w1) doc') as [row|e2]; [|intros _; exact Ht].
  destruct (Knex.update row (get doc' "_id") (w_table w1)) as [[n|e3] t'] eqn:Eup.
  - discriminate.
  - intros _. cbn [snd set_table w_table].
    rewrite (update_throw_keeps_table _ _ _ _ _ Eup). exact Ht.
Qed.

(** X22: an operations object with a key other than [$set], [$unset],
    [$inc], [$pull], [$addToSet] and [$currentDate] makes [updateBody]
    throw, wherever the key stands among the others. *)
Theorem unknown_operator_rejected (doc : value) (kvs : obj) (w : world) :
  existsb (fun kv => negb (supported (fst kv)) && negb (String.eqb (fst kv) "$currentDate"))
    kvs = true ->
  exists e, fst (updateBody doc (VObj kvs) w) = Throw e.
Proof.
  intros Hex. apply existsb_exists in Hex as [[key arg] [Hin Hkey]].
  apply andb_true_iff in Hkey as [Hsup Hcd]. simpl in Hsup, Hcd.
  apply negb_true_iff in Hcd.
  assert (Hset : key <> "$set").
  { intros ->. discriminate. }
  assert (Hcur : key <> "$currentDate").
  { intros ->. discriminate. }
  unfold updateBody, bind, lift, operators. cbn [nullish].
  assert (Hthrow : forall ops, In (key, arg) ops -> exists e, each apply_operator ops doc = Throw e).
  { intros ops Hops. apply each_unsupported. apply existsb_exists.
    exists (key, arg). split; [exact Hops | exact Hsup]. }
  destruct (truthy (get (VObj kvs) "$currentDate")).
  - destruct (Hthrow (rewrite_currentDate (VObj kvs) (VDate (clock (w_ticks w))))) as [e He].
    { unfold rewrite_currentDate. apply In_remove_other; [exact Hcur|].
      apply In_assign_other; [exact Hset | exact Hin]. }
    exists e. rewrite He. reflexivity.
  - destruct (Hthrow (entries (VObj kvs)) Hin) as [e He].
    exists e. rewrite He. reflexivity.
Qed.

End MoreOperators.

(* ===================================================================== *)
(** ** How the methods compose *)
(* ===================================================================== *)

Section Composing.
Context `{Host}.









Lemma delete_one_id (id : value) (t : table) :
  nullish id = false ->
  Knex.delete_whereIn [id] t = Knex.delete_where id t.
Proof.
  intros Hid. unfold Knex.delete_whereIn, Knex.delete_where. simpl existsb.
  assert (Hu : is_undef id = false) by (destruct id; simpl in *; congruence).
  rewrite Hu. simpl.
  assert (Hgone : forall r, Knex.sql_eq (Knex.cell r "_id") id || false
                            = Knex.where_holds r ("_id", id)).
  { intros r. rewrite orb_false_r. unfold Knex.where_holds. simpl.
    destruct id; simpl in Hid; try discriminate; reflexivity. }
  rewrite (filter_ext _ _ Hgone).
  rewrite (filter_ext (fun r => negb (Knex.sql_eq (Knex.cell r "_id") id || false))
             (fun r => negb (Knex.where_holds r ("_id", id)))).
  - reflexivity.
  - intros r. rewrite Hgone. reflexivity.
Qed.

(** X24: [deleteMany] does what [deleteOne] does: when the first match, if
    there is one, is a document with an [_id] that is not null,
    [deleteMany(criteria)] and [deleteOne(criteria)] return the same and
    leave the same collection. *)
Theorem deleteMany_is_deleteOne (criteria : value) (w : world) :
  (forall d rest, fst (toArray (limit 1 (find criteria)) w) = Return (d :: rest) ->
                  truthy d = true /\ nullish (get d "_id") = false) ->
  deleteMany criteria w = deleteOne criteria w.
Proof.
  intros Hfirst. unfold deleteMany, deleteOne, bind, lift, ret.
  destruct (toArray (limit 1 (find criteria)) w) as [[matching|e] w1] eqn:Eq; [|reflexivity].
  pose proof (limit_one_length _ _ _ _ Eq) as [Hlen ->].
  destruct matching as [|d rest]; [reflexivity|].
  destruct rest; [|simpl in Hlen; lia].
  destruct (Hfirst d [] eq_refl) as [Hd Hid].
  cbn [map_outcome nth]. unfold id_of.
  assert (Hn : nullish d = false) by (destruct d; simpl in *; congruence).
  rewrite Hn, Hd. cbn [negb]. unfold knex.
  rewrite (delete_one_id _ _ Hid). reflexivity.
Qed.

Lemma toArray_none_findOne (criteria : value) (w : world) :
  fst (toArray (find criteria) w) = Return [] ->
  findOne criteria w = (Return VUndef, w).
Proof.
  intros E. rewrite findOne_first, E. reflexivity.
Qed.

(** X25: when nothing matches the criteria, [updateOne] and [updateMany]
    with [upsert] set are [insertOne(operations.$set)]: the criteria and
    the other operators play no part in what is inserted.  Without
    [upsert], [updateOne] returns [nModified: 0], [updateMany] returns
    [undefined], and nothing is written. *)
Theorem upsert_inserts_set_payload (criteria operations options : value) (w : world) :
  fst (toArray (find criteria) w) = Return [] ->
  nullish operations = false ->
  options <> VNull ->
  (truthy (get options "upsert") = true ->
   updateOne criteria operations options w = insertOne (get operations "$set") w /\
   updateMany criteria operations options w = insertOne (get operations "$set") w) /\
  (truthy (get options "upsert") = false ->
   updateOne criteria operations options w = (Return (result "nModified" 0), w) /\
   updateMany criteria operations options w = (Return VUndef, w)).
Proof.
  intros Hnone Hops Hopt.
  assert (Hready : w_tableFailed w = None).
  { rewrite toArray_matched in Hnone. unfold matched in Hnone. cbn [fst] in Hnone.
    destruct (w_tableFailed w); [discriminate | reflexivity]. }
  assert (Hall : toArray (find criteria) w = (Return [], w)).
  { rewrite toArray_matched in Hnone |- *. cbn [fst] in Hnone. rewrite Hnone. reflexivity. }
  assert (Hup : upsert_of options = Return (truthy (get options "upsert"))).
  { unfold upsert_of. destruct options; try reflexivity. contradiction. }
  unfold updateOne, updateMany, bind, lift, ret, ready.
  rewrite Hready, (toArray_none_findOne _ _ Hnone), Hall, Hup.
  unfold set_of_operations. rewrite Hops. cbn [truthy negb update_each].
  split; intros Hu; rewrite Hu; split; reflexivity.
Qed.

Lemma insert_doc_tableFailed (doc : value) (w : world) :
  w_tableFailed (snd (insert_doc doc w)) = w_tableFailed w.
Proof.
  unfold insert_doc. destruct (prepareForInsert _ doc _) as [[row|e] drawn]; [|reflexivity].
  unfold knex. cbn [w_table]. destruct (Knex.insert row (w_table w)). reflexivity.
Qed.

(** X26: [insertMany] is [insertOne] on each document in turn and stops at
    the first one that fails: it throws what that [insertOne] throws, and
    the documents inserted before it stay inserted.  When all succeed it
    returns the number of documents as [nModified]. *)
Theorem insertMany_in_turn (doc : value) (docs : list value) (w : world) :
  insertMany (doc :: docs) w =
  match insertOne doc w with
  | (Throw e, w1) => (Throw e, w1)
  | (Return _, w1) =>
      match insertMany docs w1 with
      | (Return _, w2) =>
          (Return (result "nModified" (Z.of_nat (S (length docs)))), w2)
      | (Throw e, w2) => (Throw e, w2)
      end
  end.
Proof.
  rewrite insertOne_unfold.
  unfold insertMany, bind, ready, rethrow, ret. cbn [insert_each].
  destruct (w_tableFailed w) eqn:Ew; [reflexivity|].
  unfold bind at 1.
  pose proof (insert_doc_tableFailed doc w) as Hf.
  destruct (insert_doc doc w) as [[u|e] w1]; cbn [snd] in Hf; [|reflexivity].
  rewrite Hf, Ew.
  destruct (insert_each docs w1) as [[u'|e] w2]; reflexivity.
Qed.

End Composing.

Section CurrentDate.
Context `{Host}.

Lemma fold_assign_other {A} (name : A -> string) (val : A -> value)
  (items : list A) (k : string) (row : obj) :
  (forall g, In g items -> name g <> k) ->
  lookup k (fold_left (fun r g => assign (name g) (val g) r) items row) = lookup k row.
Proof.
  revert row. induction items as [|g items IH]; intros row Hall; simpl; [reflexivity|].
  rewrite IH by (intros g' Hg'; apply Hall; right; exact Hg').
  apply lookup_assign_other. intros E. apply (Hall g); [left; reflexivity | auto].
Qed.

(** X27: with a [$currentDate], [updateBody] reads the clock once and
    works on a copy of the operations without [$currentDate], in which
    every key of [$currentDate] is [$set] to that one date (overriding a
    [$set] of the same key); the other [$set] entries and the other
    operators are as given. *)
Theorem currentDate_becomes_set (kvs : obj) (w : world) :
  truthy (get (VObj kvs) "$currentDate") = true ->
  let now := VDate (clock (w_ticks w)) in
  let stamped := keys (get (VObj kvs) "$currentDate") in
  let given_set := spread (js_or (get (VObj kvs) "$set") (VObj [])) in
  exists ops set,
    fst (operators (VObj kvs) w) = Return ops /\
    w_ticks (snd (operators (VObj kvs) w)) = S (w_ticks w) /\
    lookup "$currentDate" ops = None /\
    lookup "$set" ops = Some (VObj set) /\
    (forall k, In k stamped -> lookup k set = Some now) /\
    (forall k, ~ In k stamped -> lookup k set = lookup k given_set) /\
    (forall key, key <> "$set" -> key <> "$currentDate" -> lookup key ops = lookup key kvs).
Proof.
  intros Hcd. cbv zeta. unfold operators. cbn [nullish]. rewrite Hcd. cbn [fst snd w_ticks].
  unfold rewrite_currentDate.
  eexists. eexists. split; [reflexivity|]. split; [reflexivity|].
  split; [apply lookup_remove_same|].
  split.
  { rewrite lookup_remove_other by discriminate. apply lookup_assign_same. }
  split.
  { intros k Hk.
    apply (fold_assign_lookup (fun key : string => key) (fun _ => VDate (clock (w_ticks w)))).
    - intros; reflexivity.
    - left. exists k. split; [exact Hk | reflexivity]. }
  split.
  { intros k Hk.
    apply (fold_assign_other (fun key : string => key) (fun _ => VDate (clock (w_ticks w)))).
    intros g Hg E. apply Hk. rewrite <- E. exact Hg. }
  intros key Hs Hc.
  rewrite lookup_remove_other by exact Hc.
  apply lookup_assign_other. exact Hs.
Qed.

End CurrentDate.

(* ===================================================================== *)
(** ** The further properties on concrete collections *)
(* ===================================================================== *)

Section MoreConcrete.
Import Scenario ReferenceHost.

(** a collection whose table could not be prepared *)
Definition failed_collection : world :=
  {| w_table := new_table; w_indexes := [id_index];
     w_tableFailed := Some (js_error "unable to open database file");
     w_cuids := 0; w_ticks := 0 |}.

(** an index on [fur], then two black cats *)
Definition two_black : world := after (@insertOne sqlite spyspy) indexed_first.

Definition white_pypy : value :=
  str_obj [("_id", "1"); ("name", "pypy"); ("fur", "white")].

Definition counted : obj := [("_id", VStr "1"); ("n", VNum 10)].

(** a document whose [_id] is a number *)
Definition numbered : value := VObj [("_id", VNum 7); ("name", VStr "spike")].

Definition rename : value :=
  VObj [("$set", VObj [("fur", VStr "white")]);
        ("$rename", VObj [("fur", VStr "coat")])].

Lemma db_rejects_second_name_witness :
  "test" <> "" /\ "other" <> "" /\
  fst (db (VStr "test") (snd (db (VStr "test") []))) = Return tt /\
  snd (db (VStr "other") (snd (db (VStr "test") []))) = [VStr "test"].
Proof.
  assert (H1 : "test" <> "") by discriminate.
  assert (H2 : "other" <> "") by discriminate.
  destruct (db_rejects_second_name "test" "test" H1 H1) as [E1 _].
  destruct (db_rejects_second_name "test" "other" H1 H2) as [E2 _].
  split; [exact H1|]. split; [exact H2|].
  rewrite E1, E2. split; reflexivity.
Defined.

Lemma failed_table_fails_every_method_witness :
  w_tableFailed failed_collection = Some (js_error "unable to open database file") /\
  @insertOne sqlite pypy failed_collection
  = (Throw (js_error "unable to open database file"), failed_collection) /\
  @toArray sqlite (find black) failed_collection
  = (Throw (js_error "unable to open database file"), failed_collection).
Proof.
  assert (H1 : w_tableFailed failed_collection
               = Some (js_error "unable to open database file")) by reflexivity.
  pose proof (@failed_table_fails_every_method sqlite failed_collection _ H1) as T.
  split; [exact H1|]. split.
  - apply T.
  - apply T.
Defined.

Lemma toArray_reads_matching_rows_witness :
  fst (@toArray sqlite (limit 1 (find black)) three_cats) = Return [pypy] /\
  snd (@toArray sqlite (limit 1 (find black)) three_cats) = three_cats /\
  (Z.of_nat (length [pypy]) <= 1)%Z.
Proof.
  assert (H1 : fst (@toArray sqlite (limit 1 (find black)) three_cats) = Return [pypy])
    by (vm_compute; reflexivity).
  destruct (@toArray_reads_matching_rows sqlite _ _ _ H1) as [Hw [_ Hl]].
  split; [exact H1|]. split; [exact Hw|].
  apply (Hl 1%Z); [reflexivity | lia].
Defined.

Lemma find_without_pushdown_witness :
  w_tableFailed three_cats = None /\ black <> VNull /\
  wheres (w_indexes three_cats) (q_criteria (find black)) = [] /\
  @toArray sqlite (find black) three_cats = (Return [pypy; spyspy], three_cats).
Proof.
  assert (H1 : w_tableFailed three_cats = None) by reflexivity.
  assert (H2 : black <> VNull) by discriminate.
  assert (H3 : wheres (w_indexes three_cats) (q_criteria (find black)) = [])
    by reflexivity.
  split; [exact H1|]. split; [exact H2|]. split; [exact H3|].
  rewrite (@find_without_pushdown sqlite three_cats black H1 H2 H3).
  vm_compute. reflexivity.
Defined.

Lemma negative_skip_and_limit_witness :
  (0 < 1)%Z /\
  @toArray sqlite (skip (-1) (find (VObj []))) three_cats = (Return [spyspy], three_cats) /\
  @toArray sqlite (limit (-1) (find (VObj []))) three_cats
  = (Return [pypy; spike], three_cats).
Proof.
  assert (H1 : (0 < 1)%Z) by lia.
  destruct (@negative_skip_and_limit sqlite three_cats (VObj []) 1 H1) as [E1 E2].
  split; [exact H1|]. change (-1)%Z with (- (1))%Z. rewrite E1, E2.
  split; vm_compute; reflexivity.
Defined.

Lemma createIndex_registers_and_keeps_rows_witness :
  w_tableFailed three_cats = None /\
  nullish (VObj [("fur", VNum 1)]) = false /\
  w_indexes (snd (@createIndex sqlite (VObj [("fur", VNum 1)]) VUndef three_cats))
  = [id_index; fur_index] /\
  rows (snd (@createIndex sqlite (VObj [("fur", VNum 1)]) VUndef three_cats))
  = rows three_cats.
Proof.
  assert (H1 : w_tableFailed three_cats = None) by reflexivity.
  assert (H2 : nullish (VObj [("fur", VNum 1)]) = false) by reflexivity.
  destruct (@createIndex_registers_and_keeps_rows sqlite three_cats
              (VObj [("fur", VNum 1)]) VUndef H1 H2) as [Ei Er].
  split; [exact H1|]. split; [exact H2|]. split; [rewrite Ei; reflexivity | exact Er].
Defined.

Lemma createIndex_existing_index_witness :
  fst (@createIndex sqlite (VObj [("fur", VNum 1)]) VUndef indexed_first) = Return tt /\
  w_table (snd (@createIndex sqlite (VObj [("fur", VNum 1)]) VUndef indexed_first))
  = w_table indexed_first.
Proof.
  assert (H1 : w_tableFailed indexed_first = None) by reflexivity.
  assert (H2 : nullish (VObj [("fur", VNum 1)]) = false) by reflexivity.
  assert (H3 : VUndef <> VNull) by discriminate.
  assert (H4 : keys (VObj [("fur", VNum 1)]) <> []) by discriminate.
  assert (H5 : forallb (fun c => Knex.hasColumn c (w_table indexed_first))
                 (map mangleName (keys (VObj [("fur", VNum 1)]))) = true)
    by (vm_compute; reflexivity).
  assert (H6 : existsb (Knex.same_index
                          (map mangleName (keys (VObj [("fur", VNum 1)])),
                           truthy (get (if is_undef VUndef then VObj [] else VUndef) "unique")))
                 (t_indexes (w_table indexed_first)) = true)
    by (vm_compute; reflexivity).
  assert (H7 : includes "already exists" (error_toString (@index_exists_error sqlite)) = true)
    by (vm_compute; reflexivity).
  rewrite (@createIndex_existing_index sqlite indexed_first _ _ H1 H2 H3 H4 H5 H6 H7).
  split; reflexivity.
Defined.

Lemma createIndex_never_throws_already_exists_witness :
  w_tableFailed two_black = None /\
  fst (@createIndex sqlite (VObj [("fur", VNum 1)]) (VObj [("unique", VBool true)])
         two_black) = Throw (@unique_error sqlite) /\
  includes "already exists" (error_toString (@unique_error sqlite)) = false.
Proof.
  assert (H1 : w_tableFailed two_black = None) by reflexivity.
  assert (H2 : fst (@createIndex sqlite (VObj [("fur", VNum 1)])
                      (VObj [("unique", VBool true)]) two_black)
               = Throw (@unique_error sqlite)) by (vm_compute; reflexivity).
  split; [exact H1|]. split; [exact H2|].
  exact (@createIndex_never_throws_already_exists sqlite _ _ _ _ H1 H2).
Defined.

Lemma prepareForUpdate_mirrors_witness :
  lookup "fur"
    [("_id", VStr "1"); ("_ext_json", VStr (@EJSON_stringify sqlite pypy));
     ("fur", VStr "black")] = Some (VStr "black").
Proof.
  pose (row := [("_id", VStr "1"); ("_ext_json", VStr (@EJSON_stringify sqlite pypy));
                ("fur", VStr "black")]).
  assert (H1 : @prepareForUpdate sqlite [id_index; fur_index] pypy = Return row)
    by (vm_compute; reflexivity).
  assert (H2 : In "fur" (indexed_fields [id_index; fur_index]))
    by (simpl; right; left; reflexivity).
  assert (H3 : forall g, In g (indexed_fields [id_index; fur_index]) ->
                         mangleName g = mangleName "fur" ->
                         deepGet pypy g = deepGet pypy "fur").
  { intros g [<-|[<-|[]]] E; [discriminate E | reflexivity]. }
  destruct (@prepareForUpdate_mirrors sqlite _ _ _ _ H1 H2 H3) as [E _].
  exact E.
Defined.


Lemma replaceOne_absent_id_witness :
  forallb (fun old => negb (@Knex.where_holds sqlite old ("_id", get spike "_id")))
    (rows one_cat) = true /\
  @replaceOne sqlite spike one_cat = (Return (result "nModified" 1), one_cat).
Proof.
  pose (row := [("_id", VStr "2"); ("_ext_json", VStr (@EJSON_stringify sqlite spike))]).
  assert (H1 : w_tableFailed one_cat = None) by reflexivity.
  assert (H2 : @prepareForUpdate sqlite (w_indexes one_cat) spike = Return row)
    by (vm_compute; reflexivity).
  assert (H3 : is_undef (get spike "_id") = false) by reflexivity.
  assert (H4 : forallb (fun kv => Knex.hasColumn (fst kv) (w_table one_cat))
                 (@Knex.bound_cells sqlite row) = true) by (vm_compute; reflexivity).
  assert (H5 : forallb (fun old => negb (@Knex.where_holds sqlite old
                                           ("_id", get spike "_id")))
                 (rows one_cat) = true) by (vm_compute; reflexivity).
  split; [exact H5|].
  exact (@replaceOne_absent_id sqlite one_cat spike row H1 H2 H3 H4 H5).
Defined.

Lemma replaceOne_round_trip_witness :
  Forall2 (fun old new =>
             if @Knex.where_holds sqlite old ("_id", get white_pypy "_id")
             then @decode sqlite new = white_pypy else new = old)
    (rows three_cats) (rows (after (@replaceOne sqlite white_pypy) three_cats)).
Proof.
  assert (H1 : no_blob_field (w_indexes three_cats) = true) by reflexivity.
  assert (H2 : @EJSON_parse sqlite (VStr (@EJSON_stringify sqlite white_pypy)) = white_pypy)
    by (vm_compute; reflexivity).
  assert (H3 : @replaceOne sqlite white_pypy three_cats
               = (Return (result "nModified" 1),
                  after (@replaceOne sqlite white_pypy) three_cats))
    by (vm_compute; reflexivity).
  exact (proj2 (@replaceOne_round_trip sqlite _ _ _ _ H1 H2 H3)).
Defined.

(** The identifier is compared as the column holds it: a document stored
    under the text ['7'] is replaced by [replaceOne] of a document whose
    [_id] is the number 7. *)
Example replaceOne_number_for_text :
  let stored := after (@insertOne sqlite (str_obj [("_id", "7"); ("name", "pypy")]))
                  new_collection in
  map (@decode sqlite) (rows stored) = [str_obj [("_id", "7"); ("name", "pypy")]] /\
  map (@decode sqlite) (rows (after (@replaceOne sqlite numbered) stored)) = [numbered].
Proof. split; vm_compute; reflexivity. Qed.

Lemma inc_accumulates_witness :
  safe_integer 2 /\
  lookup "n" counted = Some (VNum 10) /\
  (exists o', times 3 (@inc sqlite "n" 2) (VObj counted) = Return (VObj o') /\
              lookup "n" o' = Some (VNum 16)) /\
  lookup "m" counted = None /\
  (exists o', times 3 (@inc sqlite "m" 2) (VObj counted) = Return (VObj o') /\
              lookup "m" o' = Some (VNum 6)).
Proof.
  assert (H2 : safe_integer 2) by (unfold safe_integer; simpl; lia).
  assert (H10 : safe_integer 10) by (unfold safe_integer; simpl; lia).
  assert (H16 : safe_integer (10 + Z.of_nat 3 * 2)) by (unfold safe_integer; simpl; lia).
  assert (H6 : safe_integer (Z.of_nat 3 * 2)) by (unfold safe_integer; simpl; lia).
  assert (Hm : "m" <> "__proto__") by discriminate.
  destruct (@inc_accumulates sqlite 3 counted "n" 2 H2) as [Hpresent _].
  destruct (Hpresent 10%Z eq_refl H10 H16) as [o1 [E1 [L1 _]]].
  destruct (@inc_accumulates sqlite 2 counted "m" 2 H2) as [_ Habsent].
  destruct (Habsent eq_refl Hm H6) as [o2 [E2 [L2 _]]].
  split; [exact H2|].
  split; [reflexivity|]. split; [exists o1; split; [exact E1 | exact L1]|].
  split; [reflexivity|]. exists o2. split; [exact E2 | exact L2].
Defined.

Lemma updateBody_throw_writes_nothing_witness :
  fst (@updateBody sqlite pypy rename one_cat)
  = Throw (js_error "@apostrophecms/sql does not support $rename") /\
  w_table (snd (@updateBody sqlite pypy rename one_cat)) = w_table one_cat.
Proof.
  assert (H1 : fst (@updateBody sqlite pypy rename one_cat)
               = Throw (js_error "@apostrophecms/sql does not support $rename"))
    by (vm_compute; reflexivity).
  split; [exact H1|].
  exact (@updateBody_throw_writes_nothing sqlite _ _ _ _ H1).
Defined.

Lemma unknown_operator_rejected_witness :
  exists e,
    fst (@updateBody sqlite pypy
           (VObj [("$set", VObj [("fur", VStr "white")]);
                  ("$rename", VObj [("fur", VStr "coat")])]) one_cat) = Throw e.
Proof.
  apply (@unknown_operator_rejected sqlite). reflexivity.
Defined.


Lemma deleteMany_is_deleteOne_witness :
  @deleteMany sqlite black three_cats = @deleteOne sqlite black three_cats.
Proof.
  apply (@deleteMany_is_deleteOne sqlite).
  intros d rest E. vm_compute in E. injection E as <- <-. split; reflexivity.
Defined.

Lemma upsert_inserts_set_payload_witness :
  fst (@toArray sqlite (find (str_obj [("name", "nobody")])) three_cats) = Return [] /\
  @updateOne sqlite (str_obj [("name", "nobody")])
    (VObj [("$set", str_obj [("_id", "7"); ("fur", "grey")])])
    (VObj [("upsert", VBool true)]) three_cats
  = @insertOne sqlite (str_obj [("_id", "7"); ("fur", "grey")]) three_cats.
Proof.
  assert (H1 : fst (@toArray sqlite (find (str_obj [("name", "nobody")])) three_cats)
               = Return []) by (vm_compute; reflexivity).
  assert (H2 : nullish (VObj [("$set", str_obj [("_id", "7"); ("fur", "grey")])]) = false)
    by reflexivity.
  assert (H3 : VObj [("upsert", VBool true)] <> VNull) by discriminate.
  destruct (@upsert_inserts_set_payload sqlite _ _ _ _ H1 H2 H3) as [Hup _].
  split; [exact H1|]. exact (proj1 (Hup eq_refl)).
Defined.

Lemma currentDate_becomes_set_witness :
  exists ops set,
    fst (@operators sqlite
           (VObj [("$currentDate", VObj [("seen", VBool true)]);
                  ("$set", VObj [("seen", VNum 0); ("fur", VStr "white")])]) one_cat)
    = Return ops /\
    lookup "$currentDate" ops = None /\
    lookup "$set" ops = Some (VObj set) /\
    lookup "seen" set = Some (VDate (@clock sqlite 0)) /\
    lookup "fur" set = Some (VStr "white").
Proof.
  destruct (@currentDate_becomes_set sqlite
              [("$currentDate", VObj [("seen", VBool true)]);
               ("$set", VObj [("seen", VNum 0); ("fur", VStr "white")])] one_cat eq_refl)
    as [ops [set [E [_ [Hc [Hs [Hstamp [Hother _]]]]]]]].
  exists ops, set. split; [exact E|]. split; [exact Hc|]. split; [exact Hs|].
  split.
  - apply Hstamp. left. reflexivity.
  - rewrite Hother; [reflexivity|]. intros [E1|[]]. discriminate E1.
Defined.

End MoreConcrete.
